(** * Project Genesis: agent decision-and-update loop and action resolution

    A shallow embedding of [person.py], [world.py] and the orchestrator of
    [main.py], followed by the properties of the specification that concern
    the resource pool, the exit gate, the learning update, the life-stage
    machine, grief propagation, belief sharing and reproducibility.

    Modelling conventions.
    - Python [float] values are exact rationals ([Q]): the arithmetic of the
      source is reproduced operation by operation, without rounding.  Where
      rounding decides a property (the learning update), the expression of
      the source is also given over the primitive binary64 floats
      ([new_Q_binary64]).
    - Python [int] values are [Z].
    - Objects are mutated in place in the source.  A [Person] carries its
      object identity ([oid]); the population list is the store, and a
      mutation of an object is a replacement of the entry with that identity.
    - The module-level generator of [random] is an explicit state threaded
      through every draw, in the order of the source.  [uuid.uuid4] reads the
      operating system's entropy and is a separate oracle.
    - Log output, CSV writing and plotting are not modelled. *)

From Stdlib Require Import PrimFloat.
From Stdlib Require Import ZArith QArith Qabs Lqa Lia Bool String List.
From Stdlib Require Import DecimalString.
Import ListNotations.
Open Scope Z_scope.
Open Scope Q_scope.

(* ================================================================== *)
(** ** Numbers *)

(** Comparisons of floats, as booleans. *)
Definition Qltb (x y : Q) : bool := if Qlt_le_dec x y then true else false.
Definition Qleb (x y : Q) : bool := if Qlt_le_dec y x then false else true.

(** Python's [min(a, b)] keeps [a] unless [b < a]; [max(a, b)] keeps [a]
    unless [b > a]. *)
Definition py_min (a b : Q) : Q := if Qltb b a then b else a.
Definition py_max (a b : Q) : Q := if Qltb a b then b else a.

(** [clamp(value, lo, hi) = max(lo, min(hi, value))] (person.py). *)
Definition clamp (value lo hi : Q) : Q := py_max lo (py_min hi value).

(* ================================================================== *)
(** ** Constants

    [constants.py] is not part of the sources at hand: its values are taken
    as parameters. *)

Record Constants := mkConstants {
  GRID_SIZE : Z;
  THE_MARKET : Z * Z;
  RESOURCE_MAX : Q;
  MARKET_REGENERATION_RATE : Q;
  MAX_HEALTH : Q;
  MAX_STAT : Q;
  CYCLES_PER_DEPENDENT_YEAR : Z
}.

(* ================================================================== *)
(** ** The [random] module

    Only the interface is fixed here.  [rand_below n] is
    [Random._randbelow(n)], on which [choice] and [randint] are built as in
    the library; [rand_sample n k] yields the indices picked by
    [random.sample] in a population of size [n]. *)

Record RandomModule := mkRandomModule {
  rng : Type;
  rand_seed : Z -> rng;
  rand_random : rng -> Q * rng;
  rand_below : nat -> rng -> nat * rng;
  rand_sample : nat -> nat -> rng -> list nat * rng
}.

(** A generator that replays a tape of numbers, and a set of constants, on
    which the model can be run. *)
Definition tape_pop (t : list nat) : nat * list nat :=
  match t with
  | [] => (0%nat, [])
  | n :: t' => (n, t')
  end.

Definition tape : RandomModule :=
  {| rng := list nat;
     rand_seed := fun z =>
       map (fun i => Z.to_nat ((z * 7 + Z.of_nat i * 13) mod 101))
           (seq 0 64);
     rand_random := fun t =>
       let '(n, t') := tape_pop t in (Z.of_nat (n mod 100) # 100, t');
     rand_below := fun k t =>
       let '(n, t') := tape_pop t in ((n mod k)%nat, t');
     rand_sample := fun n k t =>
       let '(m, t') := tape_pop t in
       (map (fun j => ((m + j) mod n)%nat) (seq 0 k), t') |}.

Definition demo_constants : Constants :=
  {| GRID_SIZE := 10; THE_MARKET := (5, 5)%Z;
     RESOURCE_MAX := 1000.0; MARKET_REGENERATION_RATE := 5.0;
     MAX_HEALTH := 100.0; MAX_STAT := 100.0;
     CYCLES_PER_DEPENDENT_YEAR := 365 |}.

(* ================================================================== *)
(** ** Data model *)

Inductive Status := Dependent | Single | Partnered | Grieving.

Definition Status_eqb (a b : Status) : bool :=
  match a, b with
  | Dependent, Dependent | Single, Single
  | Partnered, Partnered | Grieving, Grieving => true
  | _, _ => false
  end.

(** State-action key: [(position, sustenance > 50, reputation > 50, action)]. *)
Definition Key : Type := (Z * Z) * bool * bool * Z.

Definition pos_eqb (a b : Z * Z) : bool :=
  (fst a =? fst b)%Z && (snd a =? snd b)%Z.

Definition Key_eqb (a b : Key) : bool :=
  let '(p1, s1, r1, c1) := a in
  let '(p2, s2, r2, c2) := b in
  pos_eqb p1 p2 && Bool.eqb s1 s2 && Bool.eqb r1 r2 && (c1 =? c2)%Z.

(** A Python [dict] from keys to floats, in insertion order. *)
Definition Dict : Type := list (Key * Q).

Fixpoint dict_get (d : Dict) (k : Key) (default : Q) : Q :=
  match d with
  | [] => default
  | (k', v) :: d' => if Key_eqb k' k then v else dict_get d' k default
  end.

Fixpoint dict_set (d : Dict) (k : Key) (v : Q) : Dict :=
  match d with
  | [] => [(k, v)]
  | (k', v') :: d' =>
      if Key_eqb k' k then (k', v) :: d' else (k', v') :: dict_set d' k v
  end.

Fixpoint dict_del (d : Dict) (k : Key) : Dict :=
  match d with
  | [] => []
  | (k', v') :: d' => if Key_eqb k' k then d' else (k', v') :: dict_del d' k
  end.

Definition dict_keys (d : Dict) : list Key := map fst d.

(** [Person]: the attributes set by [__init__], with the identity of the
    object in front. [uuid] is [self.id]. *)
Record Person := mkPerson {
  oid : nat;
  name : string;
  uuid : Z;
  gender : string;
  age_years : Z;
  is_alive : bool;
  turns_survived : Z;
  health : Q;
  sustenance : Q;
  mood : Q;
  self_confidence : Q;
  reputation : Q;
  personal_goal : string;
  TiR_score : Q;
  relationship_status : Status;
  partner_name : option string;
  progeny_count : Z;
  position : Z * Z;
  last_action : string;
  action_utility_tracker : Dict;
  MEMORY_CAP : Z;
  w_Sustenance : Q;
  w_Goal_Progress : Q;
  w_Social_Bond : Q;
  w_Purpose_Goal : Q
}.

(** Attribute assignment [p.f = v], one function per assigned attribute. *)
Definition set_uuid (p : Person) (v : Z) : Person :=
  mkPerson (oid p) (name p) v (gender p) (age_years p) (is_alive p)
    (turns_survived p) (health p) (sustenance p) (mood p) (self_confidence
    p) (reputation p) (personal_goal p) (TiR_score p) (relationship_status
    p) (partner_name p) (progeny_count p) (position p) (last_action p)
    (action_utility_tracker p) (MEMORY_CAP p) (w_Sustenance p)
    (w_Goal_Progress p) (w_Social_Bond p) (w_Purpose_Goal p).

Definition set_age_years (p : Person) (v : Z) : Person :=
  mkPerson (oid p) (name p) (uuid p) (gender p) v (is_alive p)
    (turns_survived p) (health p) (sustenance p) (mood p) (self_confidence
    p) (reputation p) (personal_goal p) (TiR_score p) (relationship_status
    p) (partner_name p) (progeny_count p) (position p) (last_action p)
    (action_utility_tracker p) (MEMORY_CAP p) (w_Sustenance p)
    (w_Goal_Progress p) (w_Social_Bond p) (w_Purpose_Goal p).

Definition set_is_alive (p : Person) (v : bool) : Person :=
  mkPerson (oid p) (name p) (uuid p) (gender p) (age_years p) v
    (turns_survived p) (health p) (sustenance p) (mood p) (self_confidence
    p) (reputation p) (personal_goal p) (TiR_score p) (relationship_status
    p) (partner_name p) (progeny_count p) (position p) (last_action p)
    (action_utility_tracker p) (MEMORY_CAP p) (w_Sustenance p)
    (w_Goal_Progress p) (w_Social_Bond p) (w_Purpose_Goal p).

Definition set_turns_survived (p : Person) (v : Z) : Person :=
  mkPerson (oid p) (name p) (uuid p) (gender p) (age_years p) (is_alive p) v
    (health p) (sustenance p) (mood p) (self_confidence p) (reputation p)
    (personal_goal p) (TiR_score p) (relationship_status p) (partner_name p)
    (progeny_count p) (position p) (last_action p) (action_utility_tracker
    p) (MEMORY_CAP p) (w_Sustenance p) (w_Goal_Progress p) (w_Social_Bond p)
    (w_Purpose_Goal p).

Definition set_health (p : Person) (v : Q) : Person :=
  mkPerson (oid p) (name p) (uuid p) (gender p) (age_years p) (is_alive p)
    (turns_survived p) v (sustenance p) (mood p) (self_confidence p)
    (reputation p) (personal_goal p) (TiR_score p) (relationship_status p)
    (partner_name p) (progeny_count p) (position p) (last_action p)
    (action_utility_tracker p) (MEMORY_CAP p) (w_Sustenance p)
    (w_Goal_Progress p) (w_Social_Bond p) (w_Purpose_Goal p).

Definition set_sustenance (p : Person) (v : Q) : Person :=
  mkPerson (oid p) (name p) (uuid p) (gender p) (age_years p) (is_alive p)
    (turns_survived p) (health p) v (mood p) (self_confidence p) (reputation
    p) (personal_goal p) (TiR_score p) (relationship_status p) (partner_name
    p) (progeny_count p) (position p) (last_action p)
    (action_utility_tracker p) (MEMORY_CAP p) (w_Sustenance p)
    (w_Goal_Progress p) (w_Social_Bond p) (w_Purpose_Goal p).

Definition set_mood (p : Person) (v : Q) : Person :=
  mkPerson (oid p) (name p) (uuid p) (gender p) (age_years p) (is_alive p)
    (turns_survived p) (health p) (sustenance p) v (self_confidence p)
    (reputation p) (personal_goal p) (TiR_score p) (relationship_status p)
    (partner_name p) (progeny_count p) (position p) (last_action p)
    (action_utility_tracker p) (MEMORY_CAP p) (w_Sustenance p)
    (w_Goal_Progress p) (w_Social_Bond p) (w_Purpose_Goal p).

Definition set_self_confidence (p : Person) (v : Q) : Person :=
  mkPerson (oid p) (name p) (uuid p) (gender p) (age_years p) (is_alive p)
    (turns_survived p) (health p) (sustenance p) (mood p) v (reputation p)
    (personal_goal p) (TiR_score p) (relationship_status p) (partner_name p)
    (progeny_count p) (position p) (last_action p) (action_utility_tracker
    p) (MEMORY_CAP p) (w_Sustenance p) (w_Goal_Progress p) (w_Social_Bond p)
    (w_Purpose_Goal p).

Definition set_reputation (p : Person) (v : Q) : Person :=
  mkPerson (oid p) (name p) (uuid p) (gender p) (age_years p) (is_alive p)
    (turns_survived p) (health p) (sustenance p) (mood p) (self_confidence
    p) v (personal_goal p) (TiR_score p) (relationship_status p)
    (partner_name p) (progeny_count p) (position p) (last_action p)
    (action_utility_tracker p) (MEMORY_CAP p) (w_Sustenance p)
    (w_Goal_Progress p) (w_Social_Bond p) (w_Purpose_Goal p).

Definition set_personal_goal (p : Person) (v : string) : Person :=
  mkPerson (oid p) (name p) (uuid p) (gender p) (age_years p) (is_alive p)
    (turns_survived p) (health p) (sustenance p) (mood p) (self_confidence
    p) (reputation p) v (TiR_score p) (relationship_status p) (partner_name
    p) (progeny_count p) (position p) (last_action p)
    (action_utility_tracker p) (MEMORY_CAP p) (w_Sustenance p)
    (w_Goal_Progress p) (w_Social_Bond p) (w_Purpose_Goal p).

Definition set_TiR_score (p : Person) (v : Q) : Person :=
  mkPerson (oid p) (name p) (uuid p) (gender p) (age_years p) (is_alive p)
    (turns_survived p) (health p) (sustenance p) (mood p) (self_confidence
    p) (reputation p) (personal_goal p) v (relationship_status p)
    (partner_name p) (progeny_count p) (position p) (last_action p)
    (action_utility_tracker p) (MEMORY_CAP p) (w_Sustenance p)
    (w_Goal_Progress p) (w_Social_Bond p) (w_Purpose_Goal p).

Definition set_relationship_status (p : Person) (v : Status) : Person :=
  mkPerson (oid p) (name p) (uuid p) (gender p) (age_years p) (is_alive p)
    (turns_survived p) (health p) (sustenance p) (mood p) (self_confidence
    p) (reputation p) (personal_goal p) (TiR_score p) v (partner_name p)
    (progeny_count p) (position p) (last_action p) (action_utility_tracker
    p) (MEMORY_CAP p) (w_Sustenance p) (w_Goal_Progress p) (w_Social_Bond p)
    (w_Purpose_Goal p).

Definition set_partner_name (p : Person) (v : option string) : Person :=
  mkPerson (oid p) (name p) (uuid p) (gender p) (age_years p) (is_alive p)
    (turns_survived p) (health p) (sustenance p) (mood p) (self_confidence
    p) (reputation p) (personal_goal p) (TiR_score p) (relationship_status
    p) v (progeny_count p) (position p) (last_action p)
    (action_utility_tracker p) (MEMORY_CAP p) (w_Sustenance p)
    (w_Goal_Progress p) (w_Social_Bond p) (w_Purpose_Goal p).

Definition set_progeny_count (p : Person) (v : Z) : Person :=
  mkPerson (oid p) (name p) (uuid p) (gender p) (age_years p) (is_alive p)
    (turns_survived p) (health p) (sustenance p) (mood p) (self_confidence
    p) (reputation p) (personal_goal p) (TiR_score p) (relationship_status
    p) (partner_name p) v (position p) (last_action p)
    (action_utility_tracker p) (MEMORY_CAP p) (w_Sustenance p)
    (w_Goal_Progress p) (w_Social_Bond p) (w_Purpose_Goal p).

Definition set_position (p : Person) (v : Z * Z) : Person :=
  mkPerson (oid p) (name p) (uuid p) (gender p) (age_years p) (is_alive p)
    (turns_survived p) (health p) (sustenance p) (mood p) (self_confidence
    p) (reputation p) (personal_goal p) (TiR_score p) (relationship_status
    p) (partner_name p) (progeny_count p) v (last_action p)
    (action_utility_tracker p) (MEMORY_CAP p) (w_Sustenance p)
    (w_Goal_Progress p) (w_Social_Bond p) (w_Purpose_Goal p).

Definition set_action_utility_tracker (p : Person) (v : Dict) : Person :=
  mkPerson (oid p) (name p) (uuid p) (gender p) (age_years p) (is_alive p)
    (turns_survived p) (health p) (sustenance p) (mood p) (self_confidence
    p) (reputation p) (personal_goal p) (TiR_score p) (relationship_status
    p) (partner_name p) (progeny_count p) (position p) (last_action p) v
    (MEMORY_CAP p) (w_Sustenance p) (w_Goal_Progress p) (w_Social_Bond p)
    (w_Purpose_Goal p).


(** [Person.__init__]: the defaults of a fresh agent.  [o] is the identity
    of the new object and [u] the value drawn by [uuid.uuid4()]. *)
Definition Person_init (K : Constants) (o : nat) (u : Z) (nm gd : string)
    (age : Z) (start_pos : Z * Z) (status : Status) (goal : string)
    (tir : Q) (memory_cap : Z) : Person :=
  {| oid := o; name := nm; uuid := u; gender := gd; age_years := age;
     is_alive := true; turns_survived := 0%Z;
     health := MAX_HEALTH K; sustenance := MAX_STAT K; mood := 80.0;
     self_confidence := 70.0; reputation := 50.0;
     personal_goal := goal; TiR_score := tir;
     relationship_status := status; partner_name := None;
     progeny_count := 0%Z;
     position := start_pos; last_action := "Initialize";
     action_utility_tracker := [];
     MEMORY_CAP := memory_cap;
     w_Sustenance := 1.0; w_Goal_Progress := 0.5; w_Social_Bond := 0.5;
     w_Purpose_Goal := 0.2 |}.

(** [World]: the attributes set by [World.__init__]. *)
Record World := mkWorld {
  grid_size : Z;
  resource_level : Q;
  market_pos : Z * Z;
  resource_max : Q;
  market_regen : Q
}.

Definition set_resource_level (w : World) (v : Q) : World :=
  mkWorld (grid_size w) v (market_pos w) (resource_max w) (market_regen w).

Definition World_init (K : Constants) : World :=
  {| grid_size := GRID_SIZE K; resource_level := RESOURCE_MAX K;
     market_pos := THE_MARKET K; resource_max := RESOURCE_MAX K;
     market_regen := MARKET_REGENERATION_RATE K |}.

(** The action codes of [ACTIONS], in the order of its keys. *)
Definition ACTIONS : list Z :=
  [0; 1; 2; 3; 4; 5; 6; 7; 8; 9; 10; 11; 12]%Z.

(** An agent without the identifier [uuid.uuid4()] gave it, and the source
    of identifiers that always answers 0. *)
Definition forget (p : Person) : Person := set_uuid p 0.

Definition no_uuid : nat -> Z := fun _ => 0%Z.

(** The agents of [Simulation.__init__] under [demo_constants], and
    variants of them: Leo on the verge of death, Clara with Leo for
    partner, a child one tick short of maturity. *)
Definition demo_leo : Person :=
  Person_init demo_constants 0 0 "Leo" "Male" 25%Z (1, 1)%Z Single
    "Acquire Wealth and Status" 85.0 500%Z.

Definition demo_clara : Person :=
  Person_init demo_constants 1 0 "Clara" "Female" 22%Z (9, 9)%Z Single
    "Find Love and a Partner" 60.0 500%Z.

Definition demo_elara : Person :=
  Person_init demo_constants 2 0 "Elara" "Female" 30%Z (5, 5)%Z Single
    "Discover the World's True Limits" 5.0 500%Z.

Definition dying_leo : Person := set_health demo_leo 0.03.

Definition leos_clara : Person :=
  set_partner_name demo_clara (Some "Leo"%string).

Definition demo_child : Person :=
  set_turns_survived
    (Person_init demo_constants 3 0 "Anya_98" "Female" 0%Z (1, 1)%Z Dependent
       "Find Love and a Partner" 72.5 500%Z)
    364.

(** A cell of the grid of side [n]. *)
Definition in_grid (n : Z) (pos : Z * Z) : Prop :=
  (0 <= fst pos < n)%Z /\ (0 <= snd pos < n)%Z.

(** The cell a movement action aims at. *)
Definition cell_ahead (pos : Z * Z) (action_code : Z) : Z * Z :=
  if (action_code =? 0)%Z then (fst pos, snd pos + 1)%Z
  else if (action_code =? 1)%Z then (fst pos, snd pos - 1)%Z
  else if (action_code =? 2)%Z then (fst pos + 1, snd pos)%Z
  else if (action_code =? 3)%Z then (fst pos - 1, snd pos)%Z
  else pos.

(** The stats of an agent, each within its declared bounds. *)
Definition bounded (K : Constants) (p : Person) : Prop :=
  (0 <= health p /\ health p <= MAX_HEALTH K) /\
  (0 <= sustenance p /\ sustenance p <= MAX_STAT K) /\
  (0 <= mood p /\ mood p <= MAX_STAT K) /\
  (0 <= self_confidence p /\ self_confidence p <= MAX_STAT K) /\
  (0 <= reputation p /\ reputation p <= MAX_STAT K) /\
  (0 <= TiR_score p /\ TiR_score p <= 100).

(** A table that holds no key twice, as a [dict] does. *)
Definition distinct_keys (d : Dict) : Prop := NoDup (dict_keys d).

(** What [random.sample] promises of a draw of [k] among [n]: [k] distinct
    indices below [n]. *)
Definition sample_ok (R : RandomModule) (n k : nat) (g : rng R) : Prop :=
  List.length (fst (rand_sample R n k g)) = k /\
  NoDup (fst (rand_sample R n k g)) /\
  Forall (fun i => (i < n)%nat) (fst (rand_sample R n k g)).


(** Two cells that are the same or one movement apart. *)
Definition one_step (p q : Z * Z) : Prop :=
  q = p \/ exists c, (0 <= c <= 3)%Z /\ q = cell_ahead p c.

(** The age and the life stage an agent has when its turn in a tick is
    over. *)
Definition next_age (K : Constants) (a : Person) : Z :=
  match relationship_status a with
  | Dependent =>
      if (CYCLES_PER_DEPENDENT_YEAR K <=? turns_survived a + 1)%Z then 10%Z
      else age_years a
  | _ =>
      if ((turns_survived a + 1) mod 365 =? 0)%Z then (age_years a + 1)%Z
      else age_years a
  end.

Definition next_status (K : Constants) (a : Person) : Status :=
  match relationship_status a with
  | Dependent =>
      if (CYCLES_PER_DEPENDENT_YEAR K <=? turns_survived a + 1)%Z then Single
      else Dependent
  | st => st
  end.

(** What a tick makes of an agent it keeps in the population. *)
Definition tick_successor (K : Constants) (a b : Person) : Prop :=
  oid b = oid a /\
  name b = name a /\
  turns_survived b = (turns_survived a + 1)%Z /\
  age_years b = next_age K a /\
  (relationship_status b = next_status K a \/
   relationship_status b = Grieving) /\
  one_step (position a) (position b) /\
  (relationship_status a = Dependent -> position b = position a).

(** What a tick asks of a newborn. *)
Definition newborn (p : Person) : Prop :=
  relationship_status p = Dependent /\
  age_years p = 0%Z /\
  turns_survived p = 0%Z /\
  is_alive p = true /\
  action_utility_tracker p = [].

(* ================================================================== *)
(** ** person.py and world.py *)

Section Model.

Context (K : Constants) (R : RandomModule).

(** [urandom n]: the value [uuid.uuid4()] returns for the [n]-th agent
    created in the run; it comes from the operating system, not from the
    seeded generator. *)
Context (urandom : nat -> Z).

(** [random.choice(seq)] is [seq[_randbelow(len(seq))]]. *)
Definition rand_choice {A : Type} (seq : list A) (dflt : A) (g : rng R)
  : A * rng R :=
  let '(i, g1) := rand_below R (length seq) g in (nth i seq dflt, g1).

(** [random.randint(a, b)] is [a + _randbelow(b - a + 1)]. *)
Definition rand_randint (a b : Z) (g : rng R) : Z * rng R :=
  let '(i, g1) := rand_below R (Z.to_nat (b - a + 1)) g in
  ((a + Z.of_nat i)%Z, g1).

Definition get_random_action (g : rng R) : Z * rng R :=
  rand_choice ACTIONS 0%Z g.

Definition get_exploration_rate (self : Person) : Q :=
  clamp (1.0 - self_confidence self / MAX_STAT K) 0.0 1.0.

Definition get_health_decay_rate (self : Person) : Q :=
  let base_decay := 0.05 in
  if (60 <? age_years self)%Z
  then base_decay + inject_Z (age_years self - 60) * 0.02
  else base_decay.

(** [_prune_memory]: when the table is larger than the cap, as many keys as
    exceed it are drawn with [random.sample] and deleted. *)
Definition _prune_memory (self : Person) (g : rng R) : Person * rng R :=
  let d := action_utility_tracker self in
  let len := Z.of_nat (length d) in
  if (MEMORY_CAP self <? len)%Z then
    let remove_count := Z.to_nat (len - MEMORY_CAP self) in
    let '(idx, g1) := rand_sample R (length d) remove_count g in
    let keys := map (fun i => nth i (dict_keys d) ((0, 0)%Z, false, false, 0%Z)) idx in
    (set_action_utility_tracker self (fold_left dict_del keys d), g1)
  else (self, g).

(** [apply_aging_and_decay]: returns the agent, whether it died, and the
    generator. *)
Definition apply_aging_and_decay (self : Person) (current_cycle : Z)
    (g : rng R) : Person * bool * rng R :=
  let self := set_health self
    (clamp (health self - get_health_decay_rate self) 0.0 (MAX_HEALTH K)) in
  let self := set_sustenance self
    (clamp (sustenance self - 0.005) 0.0 (MAX_STAT K)) in
  if Qleb (health self) 0.0 || Qleb (sustenance self) 0.0 then
    (set_is_alive self false, true, g)
  else
    let self := set_turns_survived self (turns_survived self + 1)%Z in
    let '(self, g) :=
      if (turns_survived self mod 365 =? 0)%Z then
        _prune_memory (set_age_years self (age_years self + 1)%Z) g
      else (self, g) in
    let self := set_mood self (clamp (mood self) 0.0 (MAX_STAT K)) in
    let self := set_self_confidence self
      (clamp (self_confidence self) 0.0 (MAX_STAT K)) in
    let self := set_reputation self
      (clamp (reputation self) 0.0 (MAX_STAT K)) in
    (self, false, g).

(** [deceased_agent.name == self.partner_name] *)
Definition is_partner_name (self : Person) (nm : string) : bool :=
  match partner_name self with
  | Some pn => String.eqb nm pn
  | None => false
  end.

(** [grieve_loss]: returns the agent and the penalty applied. *)
Definition grieve_loss (self deceased_agent : Person) : Person * Z :=
  let '(trauma_penalty, self) :=
    if is_partner_name self (name deceased_agent) then
      (40%Z,
       set_personal_goal
         (set_partner_name (set_relationship_status self Grieving) None)
         "Recovery and Solitude")
    else (15%Z, self) in
  let self := set_mood self
    (clamp (mood self - inject_Z trauma_penalty) 0.0 (MAX_STAT K)) in
  let self := set_health self
    (clamp (health self - inject_Z trauma_penalty / 2.0) 0.0 (MAX_HEALTH K)) in
  (self, trauma_penalty).

(** [share_belief]: only the target is assigned to; returns the target and
    the reward. *)
Definition share_belief (self target_agent : Person) : Person * Q :=
  let belief_diff := TiR_score self - TiR_score target_agent in
  let influence_factor := (reputation self + 50.0) / 100.0 in
  let change_amount := belief_diff * 0.15 * influence_factor in
  let target_agent := set_TiR_score target_agent
    (clamp (TiR_score target_agent + change_amount) 0.0 100.0) in
  if Qltb 2.0 (Qabs change_amount)
  then (target_agent, Qabs change_amount * 5.0)
  else (target_agent, 0.0).

(** [create_child]: returns the parent (its [progeny_count] is incremented),
    the child and the generator.  The draws are, in order: the name, the
    two-digit suffix, the gender, the goal. *)
Definition create_child (self partner_agent : Person) (max_health_cap : Q)
    (o : nat) (u : Z) (g : rng R) : Person * Person * rng R :=
  let names := ["Anya"; "Kael"; "Zora"; "Elias"; "Nomi"]%string in
  let '(nm, g) := rand_choice names ""%string g in
  let '(num, g) := rand_randint 10 99 g in
  let child_name :=
    (nm ++ "_" ++ NilZero.string_of_int (Z.to_int num))%string in
  let '(child_gender, g) := rand_choice ["Male"; "Female"]%string ""%string g in
  let child_tir := (TiR_score self + TiR_score partner_agent) / 2.0 in
  let '(child_goal, g) :=
    rand_choice ["Acquire Wealth and Status"; "Find Love and a Partner";
                 "Discover the World's True Limits"]%string ""%string g in
  let initial_health :=
    py_max 0.0
      (MAX_HEALTH K + (reputation self + reputation partner_agent) / 5.0) in
  let initial_health := py_min initial_health max_health_cap in
  let child :=
    Person_init K o u child_name child_gender 0%Z (position self) Dependent
      child_goal child_tir (MEMORY_CAP self) in
  let child := set_health child (clamp initial_health 0.0 max_health_cap) in
  let child := set_sustenance child (clamp initial_health 0.0 max_health_cap) in
  let self := set_progeny_count self (progeny_count self + 1)%Z in
  (self, child, g).

(** *** [World.process_action]

    The function is cut in the three parts it is written in: the base cost,
    the branch on the action code, and the end of the call (regeneration of
    the pool and final clamping). *)

(** What the branch on [action_code] leaves behind. *)
Record Resolved := mkResolved {
  r_world : World;
  r_agent : Person;
  r_other : option Person;
  r_exited : bool;
  r_delta_U : Q;
  r_rng : rng R
}.

Definition base_cost (agent : Person) : Person :=
  let agent := set_sustenance agent
    (clamp (sustenance agent - 0.5) 0.0 (MAX_STAT K)) in
  set_health agent (clamp (health agent - 0.02) 0.0 (MAX_HEALTH K)).

Definition same_cell (agent : Person) (other_agent : option Person) : bool :=
  match other_agent with
  | Some o => pos_eqb (position agent) (position o)
  | None => false
  end.

(** [agent.TiR_score < 10.0 and random.random() < 0.05]: the draw is made
    only when the first test passes. *)
Definition exit_gate (agent : Person) (g : rng R) : bool * rng R :=
  if Qltb (TiR_score agent) 10.0 then
    let '(u, g) := rand_random R g in (Qltb u 0.05, g)
  else (false, g).

Definition resolve_action (w : World) (agent : Person)
    (other_agent : option Person) (action_code : Z) (g : rng R) : Resolved :=
  if (0 <=? action_code)%Z && (action_code <=? 3)%Z then
    let '(x, y) := position agent in
    let '(x, y) :=
      if (action_code =? 0)%Z then (x, y + 1)%Z
      else if (action_code =? 1)%Z then (x, y - 1)%Z
      else if (action_code =? 2)%Z then (x + 1, y)%Z
      else if (action_code =? 3)%Z then (x - 1, y)%Z
      else (x, y) in
    if (0 <=? x)%Z && (x <? grid_size w)%Z
       && (0 <=? y)%Z && (y <? grid_size w)%Z
    then mkResolved w (set_position agent (x, y)) other_agent false 1.0 g
    else mkResolved w agent other_agent false (-5.0) g
  else if (action_code =? 4)%Z then
    if pos_eqb (position agent) (market_pos w)
       && Qleb 50.0 (resource_level w)
    then
      let w := set_resource_level w (resource_level w - 50.0) in
      let agent := set_sustenance agent
        (clamp (sustenance agent + 65.0) 0.0 (MAX_STAT K)) in
      let agent := set_health agent
        (clamp (health agent + 8.0) 0.0 (MAX_HEALTH K)) in
      let agent := set_reputation agent
        (clamp (reputation agent + 5.0) 0.0 (MAX_STAT K)) in
      mkResolved w agent other_agent false 70.0 g
    else
      let agent := set_sustenance agent
        (clamp (sustenance agent - 10.0) 0.0 (MAX_STAT K)) in
      mkResolved w agent other_agent false (-15.0) g
  else if (action_code =? 5)%Z then
    let agent := set_health agent
      (clamp (health agent + 8.0) 0.0 (MAX_HEALTH K)) in
    let agent := set_sustenance agent
      (clamp (sustenance agent + 15.0) 0.0 (MAX_STAT K)) in
    let agent := set_mood agent
      (clamp (mood agent + 5.0) 0.0 (MAX_STAT K)) in
    mkResolved w agent other_agent false 20.0 g
  else if (6 <=? action_code)%Z && (action_code <=? 10)%Z then
    mkResolved w agent other_agent false 10.0 g
  else if (action_code =? 11)%Z && same_cell agent other_agent then
    match other_agent with
    | Some o =>
        let '(o, reward) := share_belief agent o in
        mkResolved w agent (Some o) false reward g
    | None => mkResolved w agent other_agent false 0.0 g
    end
  else if (action_code =? 12)%Z then
    let agent := set_sustenance agent
      (clamp (sustenance agent - 50.0) 0.0 (MAX_STAT K)) in
    let agent := set_health agent
      (clamp (health agent - 10.0) 0.0 (MAX_HEALTH K)) in
    let '(gate, g) := exit_gate agent g in
    if gate then mkResolved w agent other_agent true 1000.0 g
    else
      let agent := set_mood agent
        (clamp (mood agent - 25.0) 0.0 (MAX_STAT K)) in
      mkResolved w agent other_agent false (-100.0) g
  else mkResolved w agent other_agent false 0.0 g.

(** End of the call: the pool regenerates. *)
Definition regenerate (w : World) : World :=
  set_resource_level w
    (clamp (resource_level w + market_regen w) 0.0 (resource_max w)).

(** End of the call: final clamping of the agent. *)
Definition final_clamp (agent : Person) : Person :=
  let agent := set_health agent (clamp (health agent) 0.0 (MAX_HEALTH K)) in
  let agent := set_sustenance agent
    (clamp (sustenance agent) 0.0 (MAX_STAT K)) in
  let agent := set_mood agent (clamp (mood agent) 0.0 (MAX_STAT K)) in
  let agent := set_reputation agent
    (clamp (reputation agent) 0.0 (MAX_STAT K)) in
  set_self_confidence agent
    (clamp (self_confidence agent) 0.0 (MAX_STAT K)).

(** [process_action(agent, other_agent, action_code, new_children)].  The
    list [new_children] is not touched by the function and is left out.
    [agent] and [other_agent] are distinct objects at every call site. *)
Definition process_action (w : World) (agent : Person)
    (other_agent : option Person) (action_code : Z) (g : rng R) : Resolved :=
  let r := resolve_action w (base_cost agent) other_agent action_code g in
  mkResolved (regenerate (r_world r)) (final_clamp (r_agent r)) (r_other r)
    (r_exited r) (r_delta_U r) (r_rng r).

(* ================================================================== *)
(** ** main.py *)

Definition _state_key (agent : Person) (action_code : Z) : Key :=
  (position agent, Qltb 50.0 (sustenance agent),
   Qltb 50.0 (reputation agent), action_code).

(** The store: lookup and in-place mutation of the object with a given
    identity. *)
Fixpoint find_agent (i : nat) (pop : list Person) : option Person :=
  match pop with
  | [] => None
  | a :: pop' => if (oid a =? i)%nat then Some a else find_agent i pop'
  end.

Definition put_agent (p : Person) (pop : list Person) : list Person :=
  map (fun a => if (oid a =? oid p)%nat then p else a) pop.

(** One candidate of the exploitation loop of [decide_action]; [best] is
    [None] while [best_u] is minus infinity. *)
Definition consider (agent : Person) (best : option (Z * Q)) (act : Z)
  : option (Z * Q) :=
  let key := _state_key agent act in
  let q := dict_get (action_utility_tracker agent) key 10.0 in
  let survival_modifier := (100.0 - sustenance agent) * w_Sustenance agent in
  let purpose :=
    if String.eqb (personal_goal agent) "Discover the World's True Limits"
       && (act =? 12)%Z
    then w_Purpose_Goal agent * 100.0 else 0.0 in
  let utility := q + survival_modifier + purpose in
  match best with
  | None => Some (act, utility)
  | Some (_, best_u) =>
      if Qltb best_u utility then Some (act, utility) else best
  end.

(** [decide_action]: returns the action, the identity of the target (if
    any) and the generator. *)
Definition decide_action (agent : Person) (population : list Person)
    (g : rng R) : Z * option nat * rng R :=
  let others :=
    filter (fun a => negb (oid a =? oid agent)%nat
                     && negb (Status_eqb (relationship_status a) Dependent))
           population in
  let '(target, g) :=
    match others with
    | [] => (None, g)
    | o :: _ => let '(t, g) := rand_choice others o g in (Some (oid t), g)
    end in
  let '(u, g) := rand_random R g in
  if Qltb u (get_exploration_rate agent) then
    let '(action, g) := get_random_action g in (action, target, g)
  else
    let '(idx, g) :=
      rand_sample R (List.length ACTIONS)
        (Nat.min (List.length ACTIONS) 5) g in
    let sample_actions := map (fun i => nth i ACTIONS 0%Z) idx in
    match fold_left (consider agent) sample_actions None with
    | Some (best, _) => (best, target, g)
    | None => let '(action, g) := get_random_action g in (action, target, g)
    end.

(** One record of [Simulation.metrics]. *)
Record Snapshot := mkSnapshot {
  tick : Z;
  population : Z;
  exited : Z;
  snap_resource_level : Q;
  avg_TiR : Q
}.

(** [Simulation]: the attributes of the object, and the part of the
    interpreter state the run depends on: the module-level generator and the
    number of objects created so far. *)
Record Simulation := mkSimulation {
  turns : Z;
  seed : option Z;
  world : World;
  global_clock : Z;
  exit_log : list Person;
  agents : list Person;
  metrics : list Snapshot;
  sim_rng : rng R;
  next_oid : nat
}.

(** [Simulation.__init__].  [ambient] is the state the module-level
    generator is in when no seed is given. *)
Definition Simulation_init (n : Z) (sd : option Z) (ambient : rng R)
  : Simulation :=
  {| turns := n; seed := sd;
     world := World_init K;
     global_clock := 0%Z;
     exit_log := [];
     agents :=
       [ Person_init K 0 (urandom 0) "Leo" "Male" 25%Z (1, 1)%Z Single
           "Acquire Wealth and Status" 85.0 500%Z;
         Person_init K 1 (urandom 1) "Clara" "Female" 22%Z (9, 9)%Z Single
           "Find Love and a Partner" 60.0 500%Z;
         Person_init K 2 (urandom 2) "Elara" "Female" 30%Z (5, 5)%Z Single
           "Discover the World's True Limits" 5.0 500%Z ];
     metrics := [];
     sim_rng := match sd with Some s => rand_seed R s | None => ambient end;
     next_oid := 3 |}.

(** Calls made on behalf of an agent during a tick. *)
Inductive Event :=
| CallDecide (actor : nat)
| CallProcess (actor : nat) (action_code : Z).

(** The state of one sweep of [step] over the agents. *)
Record Sweep := mkSweep {
  sw_world : World;
  sw_agents : list Person;
  sw_rng : rng R;
  sw_next_oid : nat;
  sw_exit_log : list Person;
  sw_to_remove : list Person;
  sw_children : list Person;
  sw_trace : list Event
}.

(** Ideological shock of an exit on another agent. *)
Definition exit_shock (s : Person) : Person :=
  if Qltb (TiR_score s) 50.0 then
    let s := set_self_confidence s 100.0 in
    set_TiR_score s (py_max 0.0 (TiR_score s - 20.0))
  else s.

(** The branch of the sweep for a [Dependent] agent. *)
Definition grow_up (agent : Person) : Person :=
  let agent := set_turns_survived agent (turns_survived agent + 1)%Z in
  if (CYCLES_PER_DEPENDENT_YEAR K <=? turns_survived agent)%Z then
    set_age_years (set_relationship_status agent Single) 10%Z
  else agent.

(** The learning update of the sweep, in exact arithmetic. *)
Definition q_update (agent : Person) (key : Key) (delta_U : Q) : Person :=
  let alpha := 0.5 in
  let cur_Q := dict_get (action_utility_tracker agent) key 10.0 in
  let new_Q := cur_Q + alpha * (delta_U - cur_Q) in
  set_action_utility_tracker agent
    (dict_set (action_utility_tracker agent) key new_Q).

(** The value [new_Q = cur_Q + alpha * (delta_U - cur_Q)] of the learning
    update as Python computes it: in binary64, each of the three operations
    rounded to nearest. *)
Definition new_Q_binary64 (cur_Q delta_U : PrimFloat.float)
  : PrimFloat.float :=
  let alpha := 0.5%float in
  PrimFloat.add cur_Q (PrimFloat.mul alpha (PrimFloat.sub delta_U cur_Q)).

(** The turn of an agent that survived the decay of the tick: decision,
    resolution of the action, learning update, exit, reproduction.  [pop] is
    the population with the agent's decay written back. *)
Definition agent_turn (st : Sweep) (i : nat) (agent : Person)
    (pop : list Person) (g : rng R) : Sweep :=
  let '(action, target, g) := decide_action agent pop g in
  let key := _state_key agent action in
  let other :=
    match target with Some t => find_agent t pop | None => None end in
  let r := process_action (sw_world st) agent other action g in
  let g := r_rng r in
  let pop :=
    match r_other r with Some o => put_agent o pop | None => pop end in
  let agent := q_update (r_agent r) key (r_delta_U r) in
  let pop := put_agent agent pop in
  let trace := sw_trace st ++ [CallDecide i; CallProcess i action] in
  let '(pop, exit_log, to_remove) :=
    if r_exited r then
      (map (fun s => if (oid s =? oid agent)%nat then s
                     else exit_shock s) pop,
       sw_exit_log st ++ [agent], sw_to_remove st ++ [agent])
    else (pop, sw_exit_log st, sw_to_remove st) in
  match (if (action =? 10)%Z then target else None) with
  | Some t =>
      match find_agent t pop with
      | Some partner =>
          let '(agent, child, g) :=
            create_child agent partner (MAX_HEALTH K) (sw_next_oid st)
              (urandom (sw_next_oid st)) g in
          mkSweep (r_world r) (put_agent agent pop) g
            (S (sw_next_oid st)) exit_log to_remove
            (sw_children st ++ [child]) trace
      | None =>
          mkSweep (r_world r) pop g (sw_next_oid st) exit_log
            to_remove (sw_children st) trace
      end
  | None =>
      mkSweep (r_world r) pop g (sw_next_oid st) exit_log to_remove
        (sw_children st) trace
  end.

(** The body of the loop [for agent in list(self.agents)], for the agent
    with identity [i]. *)
Definition step_agent (clock : Z) (st : Sweep) (i : nat) : Sweep :=
  match find_agent i (sw_agents st) with
  | None => st
  | Some agent =>
    if Status_eqb (relationship_status agent) Dependent then
      mkSweep (sw_world st) (put_agent (grow_up agent) (sw_agents st))
        (sw_rng st) (sw_next_oid st) (sw_exit_log st) (sw_to_remove st)
        (sw_children st) (sw_trace st)
    else
      let '(agent, died, g) := apply_aging_and_decay agent clock (sw_rng st) in
      let pop := put_agent agent (sw_agents st) in
      if died then
        mkSweep (sw_world st) pop g (sw_next_oid st) (sw_exit_log st)
          (sw_to_remove st ++ [agent]) (sw_children st) (sw_trace st)
      else agent_turn st i agent pop g
  end.

(** [a in agents_to_remove] *)
Definition in_removed (a : Person) (to_remove : list Person) : bool :=
  existsb (fun d => (oid d =? oid a)%nat) to_remove.

(** [self.agents.remove(deceased)], when it is there. *)
Fixpoint remove_agent (i : nat) (pop : list Person) : list Person :=
  match pop with
  | [] => []
  | a :: pop' => if (oid a =? i)%nat then pop' else a :: remove_agent i pop'
  end.

(** One turn of the loop [for deceased in agents_to_remove]. *)
Definition grieve_and_remove (to_remove : list Person) (pop : list Person)
    (deceased : Person) : list Person :=
  let pop :=
    map (fun a =>
           if negb (oid a =? oid deceased)%nat && negb (in_removed a to_remove)
           then fst (grieve_loss a deceased) else a) pop in
  remove_agent (oid deceased) pop.

Definition sum_TiR (pop : list Person) : Q :=
  fold_left (fun acc a => acc + TiR_score a) pop 0.

Definition snapshot (clock : Z) (exits pop : list Person) (w : World)
  : Snapshot :=
  {| tick := clock;
     population := Z.of_nat (List.length pop);
     exited := Z.of_nat (List.length exits);
     snap_resource_level := resource_level w;
     avg_TiR :=
       match pop with
       | [] => 0.0
       | _ => sum_TiR pop / inject_Z (Z.of_nat (List.length pop))
       end |}.

Definition sweep (s : Simulation) : Sweep :=
  fold_left (step_agent (global_clock s + 1)%Z) (map oid (agents s))
    (mkSweep (world s) (agents s) (sim_rng s) (next_oid s) (exit_log s)
       [] [] []).

(** [Simulation.step], with the calls it made. *)
Definition step_traced (s : Simulation) : Simulation * list Event :=
  let clock := (global_clock s + 1)%Z in
  let sw := sweep s in
  let pop :=
    fold_left (grieve_and_remove (sw_to_remove sw)) (sw_to_remove sw)
      (sw_agents sw) in
  let pop := pop ++ sw_children sw in
  (mkSimulation (turns s) (seed s) (sw_world sw) clock (sw_exit_log sw) pop
     (metrics s ++ [snapshot clock (sw_exit_log sw) pop (sw_world sw)])
     (sw_rng sw) (sw_next_oid sw),
   sw_trace sw).

Definition step (s : Simulation) : Simulation := fst (step_traced s).

(** The loop of [Simulation.run]. *)
Definition run (s : Simulation) : Simulation :=
  Nat.iter (Z.to_nat (turns s)) step s.

(* ================================================================== *)
(** ** Vocabulary of the properties *)

(** One call of [process_action], by its arguments. *)
Record Call := mkCall {
  c_agent : Person;
  c_other : option Person;
  c_action : Z;
  c_rng : rng R
}.

(** The worlds a sequence of calls goes through, one per call. *)
Fixpoint worlds_after (w : World) (calls : list Call) : list World :=
  match calls with
  | [] => []
  | c :: cs =>
      let w' :=
        r_world (process_action w (c_agent c) (c_other c) (c_action c)
                   (c_rng c)) in
      w' :: worlds_after w' cs
  end.

Definition pool_in_range (w : World) : Prop :=
  0 <= resource_level w /\ resource_level w <= resource_max w.

(** The states a run goes through, tick after tick. *)
Fixpoint states_after (n : nat) (s : Simulation) : list Simulation :=
  match n with
  | O => []
  | S n' => step s :: states_after n' (step s)
  end.

(** The outcome of the decay of a tick, without the bookkeeping of a
    survivor. *)
Definition decayed (self : Person) : Person :=
  let self := set_health self
    (clamp (health self - get_health_decay_rate self) 0.0 (MAX_HEALTH K)) in
  set_sustenance self (clamp (sustenance self - 0.005) 0.0 (MAX_STAT K)).

(** Whether the decay of a tick kills the agent. *)
Definition dies_in_decay (self : Person) : bool :=
  Qleb (health (decayed self)) 0.0 || Qleb (sustenance (decayed self)) 0.0.

(** An agent without its beliefs: [TiR_score] and [self_confidence] are the
    only attributes an agent's turn writes in other agents. *)
Definition blur (p : Person) : Person :=
  set_TiR_score (set_self_confidence p 0) 0.

(** [frame l pop pop']: the same objects in the same order; those whose
    identity is not in [l] differ in their beliefs at most. *)
Definition frame (l : list nat) (pop pop' : list Person) : Prop :=
  Forall2 (fun x x' => oid x' = oid x /\ (~ In (oid x) l -> blur x' = blur x))
          pop pop'.

(** The action an agent decides on, the target it gets, and what
    [process_action] returns for them. *)
Definition turn_action (a : Person) (pop : list Person) (g : rng R) : Z :=
  fst (fst (decide_action a pop g)).

Definition turn_target (a : Person) (pop : list Person) (g : rng R)
  : option nat :=
  snd (fst (decide_action a pop g)).

Definition turn_outcome (w : World) (a : Person) (pop : list Person)
    (g : rng R) : Resolved :=
  process_action w a
    (match turn_target a pop g with
     | Some t => find_agent t pop
     | None => None
     end)
    (turn_action a pop g) (snd (decide_action a pop g)).

(** The acting agent once its value table is updated. *)
Definition turn_learner (w : World) (a : Person) (pop : list Person)
    (g : rng R) : Person :=
  q_update (r_agent (turn_outcome w a pop g))
    (_state_key a (turn_action a pop g))
    (r_delta_U (turn_outcome w a pop g)).

(** The population a turn leaves behind. *)
Definition turn_agents (w : World) (a : Person) (pop : list Person)
    (g : rng R) : list Person :=
  let r := turn_outcome w a pop g in
  let learner := turn_learner w a pop g in
  let pop1 :=
    match r_other r with Some o => put_agent o pop | None => pop end in
  let pop2 := put_agent learner pop1 in
  let pop3 :=
    if r_exited r then
      map (fun s => if (oid s =? oid learner)%nat then s else exit_shock s)
          pop2
    else pop2 in
  match (if (turn_action a pop g =? 10)%Z then turn_target a pop g
         else None) with
  | Some t =>
      match find_agent t pop3 with
      | Some _ =>
          put_agent
            (set_progeny_count learner (progeny_count learner + 1)%Z) pop3
      | None => pop3
      end
  | None => pop3
  end.

(** Whether an agent of the population takes a turn in the tick: it is
    not [Dependent] and the decay of the tick does not kill it. *)
Definition acts (a : Person) : bool :=
  negb (Status_eqb (relationship_status a) Dependent)
  && negb (dies_in_decay a).

(** The pairs of calls made for the agents of [l] that act. *)
Definition calls_of (l : list (nat * Z)) : list Event :=
  flat_map (fun ja => [CallDecide (fst ja); CallProcess (fst ja) (snd ja)]) l.

(** Whether the agent with identity [j] is there and acts. *)
Definition acting (pop : list Person) (j : nat) : bool :=
  match find_agent j pop with
  | Some a => acts a
  | None => false
  end.

(** The grief of one agent for a list of deceased, in order. *)
Definition grieve_all (deceased : list Person) (a : Person) : Person :=
  fold_left (fun x d => fst (grieve_loss x d)) deceased a.

(** The agents of a population that are not to be removed. *)
Definition survivors (to_remove pop : list Person) : list Person :=
  filter (fun a => negb (in_removed a to_remove)) pop.

(** Distinct objects, all of them created before [next_oid]. *)
Definition well_formed (s : Simulation) : Prop :=
  NoDup (map oid (agents s)) /\
  Forall (fun a => (oid a < next_oid s)%nat) (agents s).

(** The agent as its turn finds it, once the decay of the tick is applied;
    the population with that state written back; the generator after the
    decay. *)
Definition before_action (c : Z) (st : Sweep) (a : Person) : Person :=
  fst (fst (apply_aging_and_decay a c (sw_rng st))).

Definition pop_before_action (c : Z) (st : Sweep) (a : Person)
  : list Person :=
  put_agent (before_action c st a) (sw_agents st).

Definition rng_before_action (c : Z) (st : Sweep) (a : Person) : rng R :=
  snd (apply_aging_and_decay a c (sw_rng st)).

(** The agent on whose behalf a call is made. *)
Definition actor (e : Event) : nat :=
  match e with
  | CallDecide i => i
  | CallProcess i _ => i
  end.

(** What [grieve_loss] does to the survivor [x] for the deceased [d]. *)
Definition grief_applied (x d x' : Person) : Prop :=
  if is_partner_name x (name d) then
    mood x' = clamp (mood x - 40) 0.0 (MAX_STAT K) /\
    health x' = clamp (health x - 40 / 2.0) 0.0 (MAX_HEALTH K) /\
    relationship_status x' = Grieving /\
    partner_name x' = None
  else
    mood x' = clamp (mood x - 15) 0.0 (MAX_STAT K) /\
    health x' = clamp (health x - 15 / 2.0) 0.0 (MAX_HEALTH K) /\
    relationship_status x' = relationship_status x /\
    partner_name x' = partner_name x.

Definition is_process (e : Event) : bool :=
  match e with
  | CallProcess _ _ => true
  | CallDecide _ => false
  end.

(** The calls of [process_action] in a trace: each regenerates the pool
    once, and nothing else does. *)
Definition regenerations (tr : list Event) : nat :=
  List.length (filter is_process tr).

(** Forgetting the identifiers of the agents a value holds. *)
Definition forget_resolved (r : Resolved) : Resolved :=
  mkResolved (r_world r) (forget (r_agent r)) (option_map forget (r_other r))
    (r_exited r) (r_delta_U r) (r_rng r).

Definition forget_sweep (st : Sweep) : Sweep :=
  mkSweep (sw_world st) (map forget (sw_agents st)) (sw_rng st)
    (sw_next_oid st) (map forget (sw_exit_log st))
    (map forget (sw_to_remove st)) (map forget (sw_children st))
    (sw_trace st).

Definition forget_sim (s : Simulation) : Simulation :=
  mkSimulation (turns s) (seed s) (world s) (global_clock s)
    (map forget (exit_log s)) (map forget (agents s)) (metrics s)
    (sim_rng s) (next_oid s).

(** The table and the generator [_prune_memory] leaves. *)
Definition pruned (d : Dict) (cap : Z) (g : rng R) : Dict * rng R :=
  if (cap <? Z.of_nat (List.length d))%Z then
    let '(idx, g1) :=
      rand_sample R (List.length d)
        (Z.to_nat (Z.of_nat (List.length d) - cap)) g in
    (fold_left dict_del
       (map (fun i => nth i (dict_keys d) ((0, 0)%Z, false, false, 0%Z)) idx)
       d, g1)
  else (d, g).

(** The sweep of a tick before any agent had its turn; a simulation with
    its pool emptied; a simulation about to run its first tick on a given
    population. *)
Definition first_sweep (s : Simulation) : Sweep :=
  mkSweep (world s) (agents s) (sim_rng s) (next_oid s) (exit_log s)
    [] [] [].

Definition drained (s : Simulation) : Simulation :=
  mkSimulation (turns s) (seed s) (set_resource_level (world s) 0.0)
    (global_clock s) (exit_log s) (agents s) (metrics s) (sim_rng s)
    (next_oid s).

Definition tick_of (pop : list Person) (g : rng R) (next : nat)
  : Simulation :=
  mkSimulation 1 None (World_init K) 0 [] pop [] g next.

(* ================================================================== *)
(** ** Comparisons and [clamp] *)

Lemma Qltb_true (x y : Q) : Qltb x y = true <-> x < y.
Proof.
  unfold Qltb. destruct (Qlt_le_dec x y) as [H | H]; split; intro H0;
    try reflexivity; try assumption; try discriminate.
  exfalso. apply (Qlt_not_le _ _ H0 H).
Qed.

Lemma Qltb_false (x y : Q) : Qltb x y = false <-> y <= x.
Proof.
  unfold Qltb. destruct (Qlt_le_dec x y) as [H | H]; split; intro H0;
    try reflexivity; try assumption; try discriminate.
  exfalso. apply (Qlt_not_le _ _ H H0).
Qed.

Lemma Qleb_true (x y : Q) : Qleb x y = true <-> x <= y.
Proof.
  unfold Qleb. destruct (Qlt_le_dec y x) as [H | H]; split; intro H0;
    try reflexivity; try assumption; try discriminate.
  exfalso. apply (Qlt_not_le _ _ H H0).
Qed.

Lemma Qleb_false (x y : Q) : Qleb x y = false <-> y < x.
Proof.
  unfold Qleb. destruct (Qlt_le_dec y x) as [H | H]; split; intro H0;
    try reflexivity; try assumption; try discriminate.
  exfalso. apply (Qlt_not_le _ _ H0 H).
Qed.

(** Case analysis on every comparison of a goal about [clamp]. *)
Ltac clamp_cases :=
  unfold clamp, py_max, py_min, Qltb, Qleb in *;
  repeat match goal with
         | |- context [Qlt_le_dec ?a ?b] => destruct (Qlt_le_dec a b)
         | H : context [Qlt_le_dec ?a ?b] |- _ => destruct (Qlt_le_dec a b)
         end.

Lemma clamp_lower (v lo hi : Q) : lo <= clamp v lo hi.
Proof. clamp_cases; lra. Qed.

Lemma clamp_upper (v lo hi : Q) : lo <= hi -> clamp v lo hi <= hi.
Proof. intro H. clamp_cases; lra. Qed.

Lemma clamp_inside (v lo hi : Q) : lo <= v -> v <= hi -> clamp v lo hi == v.
Proof. intros H1 H2. clamp_cases; lra. Qed.

Lemma clamp_mono_low (v lo hi x : Q) :
  x <= v -> x <= hi -> x <= clamp v lo hi.
Proof. intros H1 H2. clamp_cases; lra. Qed.

(* ================================================================== *)
(** ** The resource pool *)

Lemma regenerate_in_range (w : World) :
  0 <= resource_max w -> pool_in_range (regenerate w).
Proof.
  intro H. unfold pool_in_range, regenerate. simpl.
  pose proof (clamp_lower (resource_level w + market_regen w) 0.0
                (resource_max w)) as H1.
  assert (H2 : 0.0 <= resource_max w) by lra.
  pose proof (clamp_upper (resource_level w + market_regen w) _ _ H2) as H3.
  split; lra.
Qed.

Lemma regenerate_max (w : World) :
  resource_max (regenerate w) = resource_max w.
Proof. reflexivity. Qed.

Lemma resolve_action_max (w : World) (a : Person) (o : option Person)
    (c : Z) (g : rng R) :
  resource_max (r_world (resolve_action w a o c g)) = resource_max w.
Proof.
  unfold resolve_action.
  repeat match goal with
         | |- context [if ?b then _ else _] => destruct b
         | |- context [let '(_, _) := ?e in _] => destruct e
         | |- context [match ?e with Some _ => _ | None => _ end] => destruct e
         end; reflexivity.
Qed.

Lemma process_action_max (w : World) (a : Person) (o : option Person)
    (c : Z) (g : rng R) :
  resource_max (r_world (process_action w a o c g)) = resource_max w.
Proof.
  unfold process_action. simpl. apply resolve_action_max.
Qed.

Lemma process_action_in_range (w : World) (a : Person) (o : option Person)
    (c : Z) (g : rng R) :
  0 <= resource_max w -> pool_in_range (r_world (process_action w a o c g)).
Proof.
  intro H. unfold process_action. simpl. apply regenerate_in_range.
  rewrite resolve_action_max. exact H.
Qed.

(* ================================================================== *)
(** ** Facts on the store and on the methods of [Person] *)

(** Destructs the scrutinee of some [match] (or [if], or destructuring
    [let]) of the goal. *)
Ltac break_match :=
  match goal with
  | |- context [match ?e with _ => _ end] => destruct e eqn:?
  end.

Lemma find_agent_oid (i : nat) (pop : list Person) (a : Person) :
  find_agent i pop = Some a -> oid a = i.
Proof.
  induction pop as [| x pop IH]; simpl; [discriminate |].
  destruct (Nat.eqb_spec (oid x) i) as [E | E]; intro H.
  - inversion H; subst; reflexivity.
  - apply IH; exact H.
Qed.

Lemma find_agent_In (i : nat) (pop : list Person) (a : Person) :
  find_agent i pop = Some a -> In a pop.
Proof.
  induction pop as [| x pop IH]; simpl; [discriminate |].
  destruct (oid x =? i)%nat; intro H.
  - inversion H; subst; left; reflexivity.
  - right; apply IH; exact H.
Qed.

Lemma find_agent_map (f : Person -> Person) (i : nat) (pop : list Person) :
  (forall x, oid (f x) = oid x) ->
  find_agent i (map f pop) = option_map f (find_agent i pop).
Proof.
  intro Hf. induction pop as [| x pop IH]; simpl; [reflexivity |].
  rewrite Hf. destruct (oid x =? i)%nat; [reflexivity | exact IH].
Qed.

Lemma find_agent_unique (pop : list Person) (a : Person) :
  NoDup (map oid pop) -> In a pop -> find_agent (oid a) pop = Some a.
Proof.
  induction pop as [| x pop IH]; simpl; intros Hnd Hin; [contradiction |].
  inversion Hnd as [| ? ? Hx Hnd']; subst.
  destruct Hin as [-> | Hin].
  - rewrite Nat.eqb_refl; reflexivity.
  - destruct (Nat.eqb_spec (oid x) (oid a)) as [E | E].
    + exfalso. apply Hx. rewrite E. apply in_map. exact Hin.
    + apply IH; assumption.
Qed.

Lemma find_agent_none (i : nat) (pop : list Person) :
  find_agent i pop = None <-> ~ In i (map oid pop).
Proof.
  induction pop as [| x pop IH]; simpl.
  - split; [intros _ H; exact H | reflexivity].
  - destruct (Nat.eqb_spec (oid x) i) as [E | E].
    + split; [discriminate | intro H; exfalso; apply H; left; exact E].
    + rewrite IH. split; intro H.
      * intros [H1 | H1]; [apply E; exact H1 | apply H; exact H1].
      * intro H1; apply H; right; exact H1.
Qed.

Lemma map_oid_map (f : Person -> Person) (pop : list Person) :
  (forall x, oid (f x) = oid x) -> map oid (map f pop) = map oid pop.
Proof.
  intro Hf. rewrite map_map. apply map_ext. exact Hf.
Qed.

Lemma Status_eqb_eq (a b : Status) : Status_eqb a b = true <-> a = b.
Proof. destruct a, b; simpl; split; congruence. Qed.

Lemma prune_memory_fields (self : Person) (g : rng R) :
  exists d,
    fst (_prune_memory self g) = set_action_utility_tracker self d.
Proof.
  unfold _prune_memory. repeat break_match; simpl.
  - eexists; reflexivity.
  - exists (action_utility_tracker self). destruct self; reflexivity.
Qed.

Lemma apply_aging_and_decay_died (self : Person) (c : Z) (g : rng R) :
  dies_in_decay self = true ->
  apply_aging_and_decay self c g = (set_is_alive (decayed self) false, true, g).
Proof.
  unfold dies_in_decay, decayed, apply_aging_and_decay. intro H.
  cbn in *. rewrite H. reflexivity.
Qed.

Lemma apply_aging_and_decay_flag (self : Person) (c : Z) (g : rng R) :
  snd (fst (apply_aging_and_decay self c g)) = dies_in_decay self.
Proof.
  destruct (dies_in_decay self) eqn:H.
  - rewrite apply_aging_and_decay_died by exact H. reflexivity.
  - unfold dies_in_decay, decayed in H.
    unfold apply_aging_and_decay. cbn in *. rewrite H.
    repeat break_match; reflexivity.
Qed.

Lemma frame_refl (l : list nat) (pop : list Person) : frame l pop pop.
Proof.
  induction pop as [| x pop IH]; constructor; [split; reflexivity | exact IH].
Qed.

Lemma frame_trans (l1 l2 : list nat) (p1 p2 p3 : list Person) :
  frame l1 p1 p2 -> frame l2 p2 p3 -> frame (l1 ++ l2) p1 p3.
Proof.
  unfold frame. intro H. revert p3.
  induction H as [| x y p1 p2 [Ho Hb] H IH]; intros p3 H3;
    inversion H3 as [| ? z ? p3' [Ho' Hb'] H3']; subst; constructor.
  - split; [congruence |].
    intro Hn. rewrite Hb', Hb; [reflexivity | |];
      intro Hi; apply Hn; apply in_or_app; [left | right]; congruence.
  - apply IH; exact H3'.
Qed.

Lemma frame_weaken (l l' : list nat) (p1 p2 : list Person) :
  incl l l' -> frame l p1 p2 -> frame l' p1 p2.
Proof.
  unfold frame. intros Hi H.
  induction H as [| x y p1 p2 [Ho Hb] H IH]; constructor; [| exact IH].
  split; [exact Ho |]. intro Hn. apply Hb. intro H1. apply Hn, Hi, H1.
Qed.

Lemma frame_oids (l : list nat) (p1 p2 : list Person) :
  frame l p1 p2 -> map oid p2 = map oid p1.
Proof.
  unfold frame. intro H.
  induction H as [| x y p1 p2 [Ho Hb] H IH]; simpl; congruence.
Qed.

Lemma frame_find (l : list nat) (p1 p2 : list Person) (j : nat) (x : Person) :
  frame l p1 p2 -> find_agent j p1 = Some x ->
  exists x', find_agent j p2 = Some x' /\ oid x' = oid x /\
             (~ In j l -> blur x' = blur x).
Proof.
  unfold frame. intro H.
  induction H as [| y y' p1 p2 [Ho Hb] H IH]; simpl; [discriminate |].
  rewrite Ho. destruct (Nat.eqb_spec (oid y) j) as [E | E]; intro Hf.
  - inversion Hf; subst. exists y'. repeat split; [exact Ho | exact Hb].
  - apply IH; exact Hf.
Qed.

Lemma frame_find_none (l : list nat) (p1 p2 : list Person) (j : nat) :
  frame l p1 p2 -> find_agent j p1 = None -> find_agent j p2 = None.
Proof.
  intros H Hf. apply find_agent_none. rewrite (frame_oids l p1 p2 H).
  apply find_agent_none. exact Hf.
Qed.

Lemma frame_map (l : list nat) (f : Person -> Person) (pop : list Person) :
  (forall x, In x pop ->
     oid (f x) = oid x /\ (~ In (oid x) l -> blur (f x) = blur x)) ->
  frame l pop (map f pop).
Proof.
  unfold frame. induction pop as [| x pop IH]; intro H; simpl; constructor.
  - apply H; left; reflexivity.
  - apply IH. intros y Hy. apply H; right; exact Hy.
Qed.

(** Replacing the object [i] by a new state of itself. *)
Lemma frame_put_self (i : nat) (p : Person) (pop : list Person) :
  oid p = i -> frame [i] pop (put_agent p pop).
Proof.
  intro Hp. apply frame_map. intros x _.
  destruct (Nat.eqb_spec (oid x) (oid p)) as [E | E].
  - split; [congruence |]. intro Hn. exfalso. apply Hn. left. congruence.
  - split; reflexivity.
Qed.

(** Replacing another object by a state that differs in beliefs only. *)
Lemma frame_put_other (l : list nat) (p t : Person) (pop : list Person) :
  NoDup (map oid pop) -> find_agent (oid p) pop = Some t ->
  blur p = blur t -> frame l pop (put_agent p pop).
Proof.
  intros Hnd Hf Hb. apply frame_map. intros x Hx.
  destruct (Nat.eqb_spec (oid x) (oid p)) as [E | E].
  - split; [congruence |]. intros _.
    rewrite <- E in Hf. rewrite (find_agent_unique _ _ Hnd Hx) in Hf.
    inversion Hf; subst. exact Hb.
  - split; reflexivity.
Qed.

Lemma blur_exit_shock (s : Person) : blur (exit_shock s) = blur s.
Proof. unfold exit_shock. destruct (Qltb (TiR_score s) 50.0); reflexivity. Qed.

Lemma oid_exit_shock (s : Person) : oid (exit_shock s) = oid s.
Proof. unfold exit_shock. destruct (Qltb (TiR_score s) 50.0); reflexivity. Qed.

Lemma frame_shock (l : list nat) (k : nat) (pop : list Person) :
  frame l pop
    (map (fun s => if (oid s =? k)%nat then s else exit_shock s) pop).
Proof.
  apply frame_map. intros x _. destruct (oid x =? k)%nat.
  - split; reflexivity.
  - split; [apply oid_exit_shock | intros _; apply blur_exit_shock].
Qed.

Lemma share_belief_target (self t : Person) :
  oid (fst (share_belief self t)) = oid t /\
  blur (fst (share_belief self t)) = blur t.
Proof. unfold share_belief. break_match; split; reflexivity. Qed.

(** Generalises the result of the call of [_prune_memory] in the goal. *)
Ltac prune_cases :=
  match goal with
  | |- context [_prune_memory ?x ?g] =>
      let d := fresh "d" in
      let Hd := fresh "Hd" in
      let p := fresh "p" in
      let g' := fresh "g" in
      destruct (prune_memory_fields x g) as [d Hd];
      destruct (_prune_memory x g) as [p g'];
      simpl in Hd; subst p
  end.

Lemma apply_aging_and_decay_oid (self : Person) (c : Z) (g : rng R) :
  oid (fst (fst (apply_aging_and_decay self c g))) = oid self.
Proof.
  unfold apply_aging_and_decay.
  destruct (_ || _); [reflexivity |].
  cbn. destruct (_ =? _)%Z; [prune_cases |]; reflexivity.
Qed.

Lemma process_action_agent (w : World) (a : Person) (o : option Person)
    (c : Z) (g : rng R) :
  oid (r_agent (process_action w a o c g)) = oid a /\
  action_utility_tracker (r_agent (process_action w a o c g))
    = action_utility_tracker a /\
  TiR_score (r_agent (process_action w a o c g)) = TiR_score a.
Proof.
  unfold process_action, resolve_action, exit_gate.
  repeat break_match; simpl; repeat split; reflexivity.
Qed.

Lemma process_action_other (w : World) (a : Person) (o : option Person)
    (c : Z) (g : rng R) :
  r_other (process_action w a o c g) = o \/
  exists t, o = Some t /\ c = 11%Z /\
    pos_eqb (position (base_cost a)) (position t) = true /\
    r_other (process_action w a o c g)
      = Some (fst (share_belief (base_cost a) t)).
Proof.
  unfold process_action, resolve_action, exit_gate.
  repeat break_match; simpl; try (left; reflexivity).
  right.
  match goal with
  | H : (_ =? 11)%Z && same_cell _ (Some ?t) = true,
    H' : share_belief _ ?t = _ |- _ =>
      apply andb_prop in H; destruct H as [Hc Hs]; exists t;
      rewrite H'; repeat split;
      [apply Z.eqb_eq; exact Hc | exact Hs]
  end.
Qed.

(* ================================================================== *)
(** ** One turn of the sweep *)

(** Unfolds a turn and names the decision. *)
Ltac open_turn :=
  unfold agent_turn, turn_learner, turn_outcome, turn_action, turn_target;
  match goal with
  | |- context [decide_action ?a ?pop ?g] =>
      let action := fresh "action" in
      let target := fresh "target" in
      let g1 := fresh "g" in
      destruct (decide_action a pop g) as [[action target] g1]
  end;
  cbn [fst snd].

Lemma agent_turn_world (st : Sweep) (i : nat) (a : Person)
    (pop : list Person) (g : rng R) :
  sw_world (agent_turn st i a pop g)
    = r_world (turn_outcome (sw_world st) a pop g).
Proof. open_turn. repeat break_match; reflexivity. Qed.

Lemma agent_turn_trace (st : Sweep) (i : nat) (a : Person)
    (pop : list Person) (g : rng R) :
  sw_trace (agent_turn st i a pop g)
    = sw_trace st ++ [CallDecide i; CallProcess i (turn_action a pop g)].
Proof. open_turn. repeat break_match; reflexivity. Qed.

Lemma agent_turn_to_remove (st : Sweep) (i : nat) (a : Person)
    (pop : list Person) (g : rng R) :
  sw_to_remove (agent_turn st i a pop g)
    = sw_to_remove st ++
      (if r_exited (turn_outcome (sw_world st) a pop g)
       then [turn_learner (sw_world st) a pop g] else []).
Proof.
  open_turn. repeat break_match; simpl;
    try reflexivity; try (rewrite app_nil_r; reflexivity);
    match goal with H : (_, _, _) = (_, _, _) |- _ => inversion H; subst end;
    try reflexivity; rewrite app_nil_r; reflexivity.
Qed.

Lemma agent_turn_exit_log (st : Sweep) (i : nat) (a : Person)
    (pop : list Person) (g : rng R) :
  sw_exit_log (agent_turn st i a pop g)
    = sw_exit_log st ++
      (if r_exited (turn_outcome (sw_world st) a pop g)
       then [turn_learner (sw_world st) a pop g] else []).
Proof.
  open_turn. repeat break_match; simpl;
    try reflexivity; try (rewrite app_nil_r; reflexivity);
    match goal with H : (_, _, _) = (_, _, _) |- _ => inversion H; subst end;
    try reflexivity; rewrite app_nil_r; reflexivity.
Qed.

Lemma q_update_oid (a : Person) (k : Key) (d : Q) :
  oid (q_update a k d) = oid a.
Proof. reflexivity. Qed.

Lemma turn_learner_oid (w : World) (a : Person) (pop : list Person)
    (g : rng R) :
  oid (turn_learner w a pop g) = oid a.
Proof.
  unfold turn_learner. rewrite q_update_oid.
  unfold turn_outcome. apply process_action_agent.
Qed.

Lemma create_child_fields (self partner : Person) (cap : Q) (o : nat)
    (u : Z) (g : rng R) :
  fst (fst (create_child self partner cap o u g))
    = set_progeny_count self (progeny_count self + 1)%Z /\
  oid (snd (fst (create_child self partner cap o u g))) = o /\
  relationship_status (snd (fst (create_child self partner cap o u g)))
    = Dependent.
Proof.
  unfold create_child.
  repeat match goal with
         | |- context [match ?e with (_, _) => _ end] => destruct e
         end.
  repeat split.
Qed.

Lemma agent_turn_children (st : Sweep) (i : nat) (a : Person)
    (pop : list Person) (g : rng R) :
  exists cs,
    sw_children (agent_turn st i a pop g) = sw_children st ++ cs /\
    map oid cs = seq (sw_next_oid st) (List.length cs) /\
    sw_next_oid (agent_turn st i a pop g)
      = (sw_next_oid st + List.length cs)%nat.
Proof.
  open_turn.
  repeat break_match; simpl;
    first
      [ match goal with
        | H : create_child ?s ?p ?c ?o ?u ?g = (_, ?child, _) |- _ =>
            exists [child];
            pose proof (create_child_fields s p c o u g) as [_ [Ho _]];
            rewrite H in Ho; simpl in Ho; simpl; rewrite Ho, Nat.add_1_r;
            repeat split
        end
      | exists []; simpl; rewrite app_nil_r, Nat.add_0_r; repeat split ].
Qed.

Lemma agent_turn_agents (st : Sweep) (i : nat) (a : Person)
    (pop : list Person) (g : rng R) :
  sw_agents (agent_turn st i a pop g) = turn_agents (sw_world st) a pop g.
Proof.
  unfold turn_agents. open_turn. cbv zeta.
  generalize (process_action (sw_world st) a
                match target with
                | Some t => find_agent t pop
                | None => None
                end action g0).
  intro r.
  generalize (q_update (r_agent r) (_state_key a action) (r_delta_U r)).
  intro learner.
  destruct (r_exited r); cbv beta iota zeta;
    (destruct (if (action =? 10)%Z then target else None) as [t |];
     [| reflexivity]);
    match goal with
    | |- context [find_agent t ?p] =>
        destruct (find_agent t p) as [partner |]; [| reflexivity]
    end;
    match goal with
    | |- context [create_child ?s ?p ?c ?o ?u ?g] =>
        pose proof (create_child_fields s p c o u g) as [Hs _];
        destruct (create_child s p c o u g) as [[s' ch] g']
    end;
    simpl in Hs; subst s'; reflexivity.
Qed.

Lemma frame_step (i : nat) (p1 p2 p3 : list Person) :
  frame [i] p1 p2 -> frame [i] p2 p3 -> frame [i] p1 p3.
Proof.
  intros H1 H2. apply (frame_weaken ([i] ++ [i])).
  - intros x Hx. apply in_app_or in Hx. destruct Hx; assumption.
  - apply (frame_trans _ _ _ p2); assumption.
Qed.

Lemma frame_after_learning (i : nat) (pop pop1 : list Person)
    (learner : Person) (has_exited : bool) (partner : option nat) :
  frame [i] pop pop1 -> oid learner = i ->
  frame [i] pop
    (let pop2 := put_agent learner pop1 in
     let pop3 :=
       if has_exited then
         map (fun s => if (oid s =? oid learner)%nat then s
                       else exit_shock s) pop2
       else pop2 in
     match partner with
     | Some t =>
         match find_agent t pop3 with
         | Some _ =>
             put_agent
               (set_progeny_count learner (progeny_count learner + 1)%Z)
               pop3
         | None => pop3
         end
     | None => pop3
     end).
Proof.
  intros H1 Hl.
  assert (H2 : frame [i] pop (put_agent learner pop1)).
  { apply (frame_step _ _ pop1); [exact H1 |].
    apply frame_put_self. exact Hl. }
  cbv zeta. generalize dependent (put_agent learner pop1). intros pop2 H2.
  assert (H3 : frame [i] pop
                 (if has_exited
                  then map (fun s => if (oid s =? oid learner)%nat then s
                                     else exit_shock s) pop2
                  else pop2)).
  { destruct has_exited; [| exact H2].
    apply (frame_step _ _ pop2); [exact H2 | apply frame_shock]. }
  revert H3.
  generalize (if has_exited
              then map (fun s => if (oid s =? oid learner)%nat then s
                                 else exit_shock s) pop2
              else pop2).
  intros pop3 H3.
  destruct partner as [t |]; [| exact H3].
  destruct (find_agent t pop3); [| exact H3].
  apply (frame_step _ _ pop3); [exact H3 |].
  apply frame_put_self. exact Hl.
Qed.

Lemma frame_after_resolution (w : World) (a : Person) (pop : list Person)
    (target : option nat) (c : Z) (g : rng R) :
  NoDup (map oid pop) ->
  frame [oid a] pop
    (match r_other (process_action w a
                      (match target with
                       | Some t => find_agent t pop
                       | None => None
                       end) c g) with
     | Some o => put_agent o pop
     | None => pop
     end).
Proof.
  intro Hnd.
  destruct (process_action_other w a
              (match target with
               | Some t => find_agent t pop
               | None => None
               end) c g)
    as [E | [t [Ho [_ [_ E]]]]]; rewrite E.
  - destruct target as [t |]; [| apply frame_refl].
    destruct (find_agent t pop) as [o |] eqn:Hf; [| apply frame_refl].
    apply (frame_put_other _ o o); [exact Hnd | | reflexivity].
    rewrite (find_agent_oid _ _ _ Hf). exact Hf.
  - destruct target as [t' |]; [| discriminate].
    destruct (share_belief_target (base_cost a) t) as [So Sb].
    apply (frame_put_other _ _ t); [exact Hnd | | exact Sb].
    rewrite So, (find_agent_oid _ _ _ Ho). exact Ho.
Qed.

Lemma turn_agents_frame (w : World) (a : Person) (pop : list Person)
    (g : rng R) :
  NoDup (map oid pop) -> frame [oid a] pop (turn_agents w a pop g).
Proof.
  intro Hnd. unfold turn_agents.
  apply frame_after_learning.
  - unfold turn_outcome. apply frame_after_resolution. exact Hnd.
  - apply turn_learner_oid.
Qed.

Lemma step_agent_absent (c : Z) (st : Sweep) (i : nat) :
  find_agent i (sw_agents st) = None -> step_agent c st i = st.
Proof. unfold step_agent. intros ->. reflexivity. Qed.

Lemma step_agent_dependent (c : Z) (st : Sweep) (i : nat) (a : Person) :
  find_agent i (sw_agents st) = Some a ->
  relationship_status a = Dependent ->
  step_agent c st i
    = mkSweep (sw_world st) (put_agent (grow_up a) (sw_agents st))
        (sw_rng st) (sw_next_oid st) (sw_exit_log st) (sw_to_remove st)
        (sw_children st) (sw_trace st).
Proof. unfold step_agent. intros -> ->. reflexivity. Qed.

Lemma step_agent_died (c : Z) (st : Sweep) (i : nat) (a : Person) :
  find_agent i (sw_agents st) = Some a ->
  relationship_status a <> Dependent ->
  dies_in_decay a = true ->
  step_agent c st i
    = mkSweep (sw_world st)
        (put_agent (set_is_alive (decayed a) false) (sw_agents st))
        (sw_rng st) (sw_next_oid st) (sw_exit_log st)
        (sw_to_remove st ++ [set_is_alive (decayed a) false])
        (sw_children st) (sw_trace st).
Proof.
  unfold step_agent. intros -> Hs Hd.
  destruct (Status_eqb (relationship_status a) Dependent) eqn:E.
  - apply Status_eqb_eq in E. contradiction.
  - rewrite apply_aging_and_decay_died by exact Hd. reflexivity.
Qed.

Lemma step_agent_acts (c : Z) (st : Sweep) (i : nat) (a : Person) :
  find_agent i (sw_agents st) = Some a ->
  acts a = true ->
  step_agent c st i
    = agent_turn st i
        (fst (fst (apply_aging_and_decay a c (sw_rng st))))
        (put_agent (fst (fst (apply_aging_and_decay a c (sw_rng st))))
           (sw_agents st))
        (snd (apply_aging_and_decay a c (sw_rng st))).
Proof.
  unfold step_agent, acts. intros -> Ha.
  apply andb_prop in Ha. destruct Ha as [Hs Hd].
  apply negb_true_iff in Hs. apply negb_true_iff in Hd. rewrite Hs.
  pose proof (apply_aging_and_decay_flag a c (sw_rng st)) as Hf.
  destruct (apply_aging_and_decay a c (sw_rng st)) as [[a1 d] g1].
  simpl in Hf. simpl. rewrite Hf, Hd. reflexivity.
Qed.

(** The three ways an agent of the population goes through the sweep. *)
Lemma acts_cases (a : Person) :
  relationship_status a = Dependent \/
  (relationship_status a <> Dependent /\ dies_in_decay a = true) \/
  acts a = true.
Proof.
  unfold acts.
  destruct (Status_eqb (relationship_status a) Dependent) eqn:E.
  - left. apply Status_eqb_eq. exact E.
  - right. destruct (dies_in_decay a); [left | right; reflexivity].
    split; [| reflexivity]. intro H. apply Status_eqb_eq in H. congruence.
Qed.

Lemma grow_up_oid (a : Person) : oid (grow_up a) = oid a.
Proof. unfold grow_up. break_match; reflexivity. Qed.

Lemma put_agent_oids (p : Person) (pop : list Person) :
  map oid (put_agent p pop) = map oid pop.
Proof.
  unfold put_agent. rewrite map_map. apply map_ext_in.
  intros x _. destruct (Nat.eqb_spec (oid x) (oid p)); congruence.
Qed.

Lemma step_agent_frame (c : Z) (st : Sweep) (i : nat) :
  NoDup (map oid (sw_agents st)) ->
  frame [i] (sw_agents st) (sw_agents (step_agent c st i)).
Proof.
  intro Hnd.
  destruct (find_agent i (sw_agents st)) as [a |] eqn:Hf.
  - pose proof (find_agent_oid _ _ _ Hf) as Ho.
    destruct (acts_cases a) as [Hs | [[Hs Hd] | Ha]].
    + rewrite (step_agent_dependent c _ _ _ Hf Hs). simpl.
      apply frame_put_self. rewrite grow_up_oid. exact Ho.
    + rewrite (step_agent_died c _ _ _ Hf Hs Hd). simpl.
      apply frame_put_self. exact Ho.
    + rewrite (step_agent_acts c _ _ _ Hf Ha), agent_turn_agents.
      pose proof (apply_aging_and_decay_oid a c (sw_rng st)) as Ho1.
      revert Ho1.
      generalize (fst (fst (apply_aging_and_decay a c (sw_rng st)))).
      intros a1 Ho1.
      apply (frame_step _ _ (put_agent a1 (sw_agents st))).
      * apply frame_put_self. congruence.
      * replace i with (oid a1) by congruence.
        apply turn_agents_frame.
        rewrite put_agent_oids. exact Hnd.
  - rewrite step_agent_absent by exact Hf. apply frame_refl.
Qed.

(** What the sweep looks at in an agent before its turn is not a belief. *)
Lemma blur_status (a b : Person) :
  blur a = blur b -> relationship_status a = relationship_status b.
Proof. intro H. apply (f_equal relationship_status) in H. exact H. Qed.

Lemma blur_dies (a b : Person) :
  blur a = blur b -> dies_in_decay a = dies_in_decay b.
Proof.
  intro H. unfold dies_in_decay, decayed, get_health_decay_rate. cbn.
  rewrite (f_equal health H : health a = health b).
  rewrite (f_equal sustenance H : sustenance a = sustenance b).
  rewrite (f_equal age_years H : age_years a = age_years b).
  reflexivity.
Qed.

Lemma blur_acts (a b : Person) : blur a = blur b -> acts a = acts b.
Proof.
  intro H. unfold acts. rewrite (blur_status _ _ H), (blur_dies _ _ H).
  reflexivity.
Qed.

Lemma step_agent_trace (c : Z) (st : Sweep) (i : nat) :
  exists l,
    sw_trace (step_agent c st i) = sw_trace st ++ calls_of l /\
    map fst l = filter (acting (sw_agents st)) [i].
Proof.
  unfold acting. simpl.
  destruct (find_agent i (sw_agents st)) as [a |] eqn:Hf.
  - destruct (acts_cases a) as [Hs | [[Hs Hd] | Ha]].
    + rewrite (step_agent_dependent c _ _ _ Hf Hs). simpl.
      exists []. simpl. rewrite app_nil_r. split; [reflexivity |].
      unfold acts. rewrite Hs. reflexivity.
    + rewrite (step_agent_died c _ _ _ Hf Hs Hd). simpl.
      exists []. simpl. rewrite app_nil_r. split; [reflexivity |].
      unfold acts. rewrite Hd, andb_false_r. reflexivity.
    + rewrite (step_agent_acts c _ _ _ Hf Ha), agent_turn_trace, Ha.
      eexists [(i, _)]. simpl. split; reflexivity.
  - rewrite step_agent_absent by exact Hf.
    exists []. simpl. rewrite app_nil_r. split; reflexivity.
Qed.

Lemma acting_frame (l : list nat) (p1 p2 : list Person) (j : nat) :
  frame l p1 p2 -> ~ In j l -> acting p2 j = acting p1 j.
Proof.
  intros H Hj. unfold acting.
  destruct (find_agent j p1) as [x |] eqn:Hf.
  - destruct (frame_find _ _ _ _ _ H Hf) as [x' [Hf' [_ Hb]]].
    rewrite Hf'. apply blur_acts. apply Hb. exact Hj.
  - rewrite (frame_find_none _ _ _ _ H Hf). reflexivity.
Qed.

Lemma sweep_frame (c : Z) (l : list nat) (st : Sweep) :
  NoDup (map oid (sw_agents st)) ->
  frame l (sw_agents st) (sw_agents (fold_left (step_agent c) l st)).
Proof.
  revert st. induction l as [| i l IH]; intros st Hnd; simpl.
  - apply frame_refl.
  - pose proof (step_agent_frame c st i Hnd) as H1.
    apply (frame_trans [i] l _ _ _ H1). apply IH.
    rewrite (frame_oids _ _ _ H1). exact Hnd.
Qed.

Lemma sweep_trace (c : Z) (l : list nat) (st : Sweep) :
  NoDup l -> NoDup (map oid (sw_agents st)) ->
  exists la,
    sw_trace (fold_left (step_agent c) l st) = sw_trace st ++ calls_of la /\
    map fst la = filter (acting (sw_agents st)) l.
Proof.
  revert st. induction l as [| i l IH]; intros st Hl Hnd; simpl.
  - exists []. simpl. rewrite app_nil_r. split; reflexivity.
  - inversion Hl as [| ? ? Hi Hl']; subst.
    pose proof (step_agent_frame c st i Hnd) as H1.
    destruct (step_agent_trace c st i) as [l1 [T1 F1]].
    destruct (IH (step_agent c st i) Hl') as [l2 [T2 F2]].
    { rewrite (frame_oids _ _ _ H1). exact Hnd. }
    exists (l1 ++ l2). split.
    + rewrite T2, T1. unfold calls_of. rewrite flat_map_app, app_assoc.
      reflexivity.
    + rewrite map_app, F1, F2. simpl.
      assert (E : filter (acting (sw_agents (step_agent c st i))) l
                  = filter (acting (sw_agents st)) l).
      { apply filter_ext_in. intros j Hj. apply (acting_frame [i]).
        - exact H1.
        - intros [E | []]. subst. contradiction. }
      rewrite E. destruct (acting (sw_agents st) i); reflexivity.
Qed.

Lemma blur_name (a b : Person) : blur a = blur b -> name a = name b.
Proof. intro H. apply (f_equal name) in H. exact H. Qed.

(** What one turn adds to [agents_to_remove] and to [exit_log]. *)
Lemma step_agent_removals (c : Z) (st : Sweep) (i : nat) :
  exists extra exits,
    sw_to_remove (step_agent c st i) = sw_to_remove st ++ extra /\
    sw_exit_log (step_agent c st i) = sw_exit_log st ++ exits /\
    incl exits extra /\
    Forall (fun d => oid d = i) extra /\
    (forall a, find_agent i (sw_agents st) = Some a ->
               relationship_status a <> Dependent ->
               dies_in_decay a = true ->
               exists d, In d extra /\ oid d = i /\ name d = name a).
Proof.
  destruct (find_agent i (sw_agents st)) as [a |] eqn:Hf.
  - pose proof (find_agent_oid _ _ _ Hf) as Ho.
    destruct (acts_cases a) as [Hs | [[Hs Hd] | Ha]].
    + rewrite (step_agent_dependent c _ _ _ Hf Hs). simpl.
      exists [], []. rewrite !app_nil_r.
      repeat split; try constructor.
      * intros x [].
      * intros a0 E. inversion E; subst. contradiction.
    + rewrite (step_agent_died c _ _ _ Hf Hs Hd). simpl.
      exists [set_is_alive (decayed a) false], []. rewrite app_nil_r.
      repeat split.
      * intros x [].
      * constructor; [exact Ho | constructor].
      * intros a0 E _ _. inversion E; subst.
        exists (set_is_alive (decayed a0) false).
        repeat split. left. reflexivity.
    + rewrite (step_agent_acts c _ _ _ Hf Ha).
      rewrite agent_turn_to_remove, agent_turn_exit_log.
      pose proof (turn_learner_oid (sw_world st)
                    (fst (fst (apply_aging_and_decay a c (sw_rng st))))
                    (put_agent
                       (fst (fst (apply_aging_and_decay a c (sw_rng st))))
                       (sw_agents st))
                    (snd (apply_aging_and_decay a c (sw_rng st)))) as Hl.
      rewrite apply_aging_and_decay_oid in Hl.
      eexists; eexists.
      split; [reflexivity |]. split; [reflexivity |].
      split; [apply incl_refl |]. split.
      * destruct (r_exited _); constructor; [congruence | constructor].
      * intros a0 E _ Hd. inversion E; subst.
        unfold acts in Ha. rewrite Hd, andb_false_r in Ha. discriminate.
  - rewrite step_agent_absent by exact Hf.
    exists [], []. rewrite !app_nil_r.
    repeat split; try constructor; try discriminate.
    intros x [].
Qed.

Lemma sweep_removals (c : Z) (l : list nat) (st : Sweep) :
  NoDup l -> NoDup (map oid (sw_agents st)) ->
  exists extra exits,
    sw_to_remove (fold_left (step_agent c) l st) = sw_to_remove st ++ extra /\
    sw_exit_log (fold_left (step_agent c) l st) = sw_exit_log st ++ exits /\
    incl exits extra /\
    Forall (fun d => In (oid d) l) extra /\
    (forall j a, In j l -> find_agent j (sw_agents st) = Some a ->
                 relationship_status a <> Dependent ->
                 dies_in_decay a = true ->
                 exists d, In d extra /\ oid d = j /\ name d = name a).
Proof.
  revert st. induction l as [| i l IH]; intros st Hl Hnd; simpl.
  - exists [], []. rewrite !app_nil_r.
    repeat split; try constructor; try contradiction.
    intros x [].
  - inversion Hl as [| ? ? Hi Hl']; subst.
    pose proof (step_agent_frame c st i Hnd) as H1.
    destruct (step_agent_removals c st i) as [e1 [x1 [T1 [X1 [I1 [F1 D1]]]]]].
    destruct (IH (step_agent c st i) Hl') as [e2 [x2 [T2 [X2 [I2 [F2 D2]]]]]].
    { rewrite (frame_oids _ _ _ H1). exact Hnd. }
    exists (e1 ++ e2), (x1 ++ x2).
    rewrite T2, T1, X2, X1, !app_assoc.
    split; [reflexivity |]. split; [reflexivity |]. split; [| split].
    + apply incl_app; [apply incl_appl | apply incl_appr]; assumption.
    + apply Forall_app. split.
      * eapply Forall_impl; [| exact F1]. intros d Hd. left. symmetry.
        exact Hd.
      * eapply Forall_impl; [| exact F2]. intros d Hd. right. exact Hd.
    + intros j a [Hj | Hj] Hf Hs Hd.
      * subst j. destruct (D1 a Hf Hs Hd) as [d [Hin Hod]].
        exists d. split; [apply in_or_app; left; exact Hin | exact Hod].
      * assert (Hji : ~ In j [i]) by (intros [E | []]; subst; contradiction).
        destruct (frame_find _ _ _ _ _ H1 Hf) as [a' [Hf' [_ Hb]]].
        specialize (Hb Hji).
        destruct (D2 j a' Hj Hf') as [d [Hin [Hod Hn]]].
        { rewrite (blur_status _ _ Hb). exact Hs. }
        { rewrite (blur_dies _ _ Hb). exact Hd. }
        exists d. split; [apply in_or_app; right; exact Hin |].
        split; [exact Hod |]. rewrite Hn. apply blur_name. exact Hb.
Qed.

Lemma step_agent_children (c : Z) (st : Sweep) (i : nat) :
  exists cs,
    sw_children (step_agent c st i) = sw_children st ++ cs /\
    map oid cs = seq (sw_next_oid st) (List.length cs) /\
    sw_next_oid (step_agent c st i) = (sw_next_oid st + List.length cs)%nat.
Proof.
  destruct (find_agent i (sw_agents st)) as [a |] eqn:Hf.
  - destruct (acts_cases a) as [Hs | [[Hs Hd] | Ha]].
    + rewrite (step_agent_dependent c _ _ _ Hf Hs). simpl.
      exists []. simpl. rewrite app_nil_r, Nat.add_0_r. repeat split.
    + rewrite (step_agent_died c _ _ _ Hf Hs Hd). simpl.
      exists []. simpl. rewrite app_nil_r, Nat.add_0_r. repeat split.
    + rewrite (step_agent_acts c _ _ _ Hf Ha). apply agent_turn_children.
  - rewrite step_agent_absent by exact Hf.
    exists []. simpl. rewrite app_nil_r, Nat.add_0_r. repeat split.
Qed.

Lemma sweep_children (c : Z) (l : list nat) (st : Sweep) :
  exists cs,
    sw_children (fold_left (step_agent c) l st) = sw_children st ++ cs /\
    map oid cs = seq (sw_next_oid st) (List.length cs) /\
    sw_next_oid (fold_left (step_agent c) l st)
      = (sw_next_oid st + List.length cs)%nat.
Proof.
  revert st. induction l as [| i l IH]; intro st; simpl.
  - exists []. simpl. rewrite app_nil_r, Nat.add_0_r. repeat split.
  - destruct (step_agent_children c st i) as [c1 [C1 [O1 N1]]].
    destruct (IH (step_agent c st i)) as [c2 [C2 [O2 N2]]].
    exists (c1 ++ c2). rewrite C2, C1, N2, N1, app_assoc.
    split; [reflexivity |]. split.
    + rewrite map_app, length_app, seq_app, O1, O2, N1. reflexivity.
    + rewrite length_app. lia.
Qed.

Lemma step_agent_world (c : Z) (st : Sweep) (i : nat) :
  resource_max (sw_world (step_agent c st i)) = resource_max (sw_world st) /\
  (0 <= resource_max (sw_world st) -> pool_in_range (sw_world st) ->
   pool_in_range (sw_world (step_agent c st i))).
Proof.
  destruct (find_agent i (sw_agents st)) as [a |] eqn:Hf.
  - destruct (acts_cases a) as [Hs | [[Hs Hd] | Ha]].
    + rewrite (step_agent_dependent c _ _ _ Hf Hs). simpl. tauto.
    + rewrite (step_agent_died c _ _ _ Hf Hs Hd). simpl. tauto.
    + rewrite (step_agent_acts c _ _ _ Hf Ha), agent_turn_world.
      unfold turn_outcome. split.
      * apply process_action_max.
      * intros H _. apply process_action_in_range. exact H.
  - rewrite step_agent_absent by exact Hf. tauto.
Qed.

Lemma sweep_world (c : Z) (l : list nat) (st : Sweep) :
  resource_max (sw_world (fold_left (step_agent c) l st))
    = resource_max (sw_world st) /\
  (0 <= resource_max (sw_world st) -> pool_in_range (sw_world st) ->
   pool_in_range (sw_world (fold_left (step_agent c) l st))).
Proof.
  revert st. induction l as [| i l IH]; intro st; simpl.
  - tauto.
  - destruct (step_agent_world c st i) as [M1 P1].
    destruct (IH (step_agent c st i)) as [M2 P2].
    split; [congruence |]. intros H0 H. apply P2.
    + rewrite M1. exact H0.
    + apply P1; assumption.
Qed.

(* ================================================================== *)
(** ** Grief and removal *)

Lemma grieve_loss_oid (a d : Person) : oid (fst (grieve_loss a d)) = oid a.
Proof.
  unfold grieve_loss. destruct (is_partner_name a (name d)); reflexivity.
Qed.

Lemma in_removed_oid (a b : Person) (l : list Person) :
  oid a = oid b -> in_removed a l = in_removed b l.
Proof. unfold in_removed. intros ->. reflexivity. Qed.

Lemma in_removed_In (a d : Person) (l : list Person) :
  In d l -> in_removed a l = false -> (oid a =? oid d)%nat = false.
Proof.
  unfold in_removed. intros Hd H.
  destruct (Nat.eqb_spec (oid a) (oid d)) as [E | E]; [| reflexivity].
  assert (Ht : existsb (fun d0 => (oid d0 =? oid a)%nat) l = true).
  { apply existsb_exists. exists d. split; [exact Hd |].
    apply Nat.eqb_eq. symmetry. exact E. }
  congruence.
Qed.

Lemma in_removed_iff (a : Person) (l : list Person) :
  in_removed a l = true <-> In (oid a) (map oid l).
Proof.
  unfold in_removed. rewrite existsb_exists, in_map_iff.
  split; intros [d [H1 H2]]; exists d.
  - apply Nat.eqb_eq in H2. split; assumption.
  - split; [exact H2 | apply Nat.eqb_eq; exact H1].
Qed.

Lemma filter_of_map (f : Person -> Person) (q : Person -> bool)
    (l : list Person) :
  (forall x, q (f x) = q x) -> filter q (map f l) = map f (filter q l).
Proof.
  intro H. induction l as [| x l IH]; simpl; [reflexivity |].
  rewrite H. destruct (q x); simpl; rewrite IH; reflexivity.
Qed.

Lemma filter_keeps_all (q : Person -> bool) (l : list Person) :
  (forall x, In x l -> q x = true) -> filter q l = l.
Proof.
  induction l as [| x l IH]; simpl; intro H; [reflexivity |].
  rewrite (H x (or_introl eq_refl)), IH; [reflexivity |].
  intros y Hy. apply H. right. exact Hy.
Qed.

Lemma remove_agent_filter (i : nat) (pop : list Person) :
  NoDup (map oid pop) ->
  remove_agent i pop = filter (fun a => negb (oid a =? i)%nat) pop.
Proof.
  induction pop as [| x pop IH]; simpl; intro Hnd; [reflexivity |].
  inversion Hnd as [| ? ? Hx Hnd']; subst.
  destruct (Nat.eqb_spec (oid x) i) as [E | E]; simpl.
  - symmetry. apply filter_keeps_all.
    intros y Hy. apply negb_true_iff. apply Nat.eqb_neq.
    intro E'. apply Hx. rewrite E, <- E'. apply in_map. exact Hy.
  - rewrite IH by exact Hnd'. reflexivity.
Qed.

Lemma NoDup_oid_filter (q : Person -> bool) (pop : list Person) :
  NoDup (map oid pop) -> NoDup (map oid (filter q pop)).
Proof.
  induction pop as [| x pop IH]; simpl; intro Hnd; [constructor |].
  inversion Hnd as [| ? ? Hx Hnd']; subst.
  destruct (q x); simpl; [| apply IH; exact Hnd'].
  constructor; [| apply IH; exact Hnd'].
  intro H. apply Hx. apply in_map_iff in H. destruct H as [y [E Hy]].
  apply filter_In in Hy. rewrite <- E. apply in_map. apply Hy.
Qed.

(** The loop over [agents_to_remove], from any of its suffixes [ds]. *)
Lemma grieve_and_remove_fold (to_remove ds pop : list Person) :
  incl ds to_remove -> NoDup (map oid pop) ->
  fold_left (grieve_and_remove to_remove) ds pop
    = map (fun a => if in_removed a to_remove then a else grieve_all ds a)
          (filter (fun a => negb (in_removed a ds)) pop).
Proof.
  revert pop. induction ds as [| d ds IH]; intros pop Hin Hnd.
  - simpl. rewrite filter_keeps_all by reflexivity.
    transitivity (map (fun a : Person => a) pop);
      [symmetry; apply map_id |].
    apply map_ext. intro a. destruct (in_removed a to_remove); reflexivity.
  - simpl fold_left. unfold grieve_and_remove at 2.
    set (g := fun a : Person =>
                if negb (oid a =? oid d)%nat && negb (in_removed a to_remove)
                then fst (grieve_loss a d) else a).
    assert (Hg : forall x, oid (g x) = oid x).
    { intro x. unfold g. break_match; [apply grieve_loss_oid | reflexivity]. }
    rewrite remove_agent_filter
      by (rewrite map_oid_map; [exact Hnd | exact Hg]).
    rewrite filter_of_map by (intro x; rewrite Hg; reflexivity).
    rewrite IH.
    + rewrite filter_of_map
        by (intro x; rewrite (in_removed_oid (g x) x ds (Hg x)); reflexivity).
      rewrite map_map.
      assert (E : filter (fun a => negb (in_removed a ds))
                    (filter (fun a => negb (oid a =? oid d)%nat) pop)
                  = filter (fun a => negb (in_removed a (d :: ds))) pop).
      { clear. induction pop as [| x pop IH]; simpl; [reflexivity |].
        rewrite (Nat.eqb_sym (oid d) (oid x)).
        destruct (oid x =? oid d)%nat; simpl; [exact IH |].
        destruct (in_removed x ds); simpl; rewrite IH; reflexivity. }
      rewrite E. apply map_ext_in. intros a _.
      rewrite (in_removed_oid (g a) a to_remove (Hg a)).
      destruct (in_removed a to_remove) eqn:Ha; unfold g; rewrite Ha.
      * rewrite andb_false_r. reflexivity.
      * rewrite (in_removed_In a d to_remove (Hin d (or_introl eq_refl)) Ha).
        reflexivity.
    + intros x Hx. apply Hin. right. exact Hx.
    + rewrite map_oid_map by exact Hg. apply NoDup_oid_filter. exact Hnd.
Qed.

Lemma grieve_and_remove_all (to_remove pop : list Person) :
  NoDup (map oid pop) ->
  fold_left (grieve_and_remove to_remove) to_remove pop
    = map (grieve_all to_remove) (survivors to_remove pop).
Proof.
  intro Hnd.
  rewrite (grieve_and_remove_fold to_remove to_remove pop (incl_refl _) Hnd).
  unfold survivors. apply map_ext_in. intros a Ha.
  apply filter_In in Ha. destruct Ha as [_ Ha].
  apply negb_true_iff in Ha. rewrite Ha. reflexivity.
Qed.

(* ================================================================== *)
(** ** One tick *)

Lemma grieve_all_oid (ds : list Person) (a : Person) :
  oid (grieve_all ds a) = oid a.
Proof.
  unfold grieve_all. revert a.
  induction ds as [| d ds IH]; intro a; simpl; [reflexivity |].
  rewrite IH. apply grieve_loss_oid.
Qed.

Lemma sweep_oids (s : Simulation) :
  NoDup (map oid (agents s)) ->
  map oid (sw_agents (sweep s)) = map oid (agents s).
Proof.
  intro Hnd. unfold sweep.
  apply (frame_oids (map oid (agents s))).
  apply (sweep_frame (global_clock s + 1)%Z (map oid (agents s))
           (mkSweep (world s) (agents s) (sim_rng s) (next_oid s)
              (exit_log s) [] [] [])).
  exact Hnd.
Qed.

Lemma step_agents (s : Simulation) :
  NoDup (map oid (agents s)) ->
  agents (step s)
    = map (grieve_all (sw_to_remove (sweep s)))
          (survivors (sw_to_remove (sweep s)) (sw_agents (sweep s)))
      ++ sw_children (sweep s).
Proof.
  intro Hnd. unfold step, step_traced. simpl.
  rewrite grieve_and_remove_all; [reflexivity |].
  rewrite sweep_oids; exact Hnd.
Qed.

Lemma well_formed_init (n : Z) (sd : option Z) (ambient : rng R) :
  well_formed (Simulation_init n sd ambient).
Proof.
  unfold well_formed. simpl. split.
  - repeat constructor; simpl; intuition discriminate.
  - repeat constructor.
Qed.

Lemma well_formed_step (s : Simulation) :
  well_formed s -> well_formed (step s).
Proof.
  intros [Hnd Hlt].
  destruct (sweep_children (global_clock s + 1)%Z (map oid (agents s))
              (mkSweep (world s) (agents s) (sim_rng s) (next_oid s)
                 (exit_log s) [] [] [])) as [cs [C [O N]]].
  simpl in C, O, N. fold (sweep s) in C, N.
  assert (Hs : forall i,
             In i (map oid
                     (map (grieve_all (sw_to_remove (sweep s)))
                        (survivors (sw_to_remove (sweep s))
                           (sw_agents (sweep s))))) ->
             (i < next_oid s)%nat).
  { intros i Hi. rewrite map_oid_map in Hi by (apply grieve_all_oid).
    apply in_map_iff in Hi. destruct Hi as [x [E Hx]].
    apply filter_In in Hx. destruct Hx as [Hx _].
    assert (Hi : In i (map oid (agents s))).
    { rewrite <- (sweep_oids s Hnd), <- E. apply in_map. exact Hx. }
    apply in_map_iff in Hi. destruct Hi as [y [E' Hy]].
    rewrite Forall_forall in Hlt. rewrite <- E'. apply Hlt. exact Hy. }
  unfold well_formed. rewrite (step_agents s Hnd). split.
  - rewrite map_app. apply NoDup_app.
    + rewrite map_oid_map by (apply grieve_all_oid).
      apply NoDup_oid_filter. rewrite sweep_oids; exact Hnd.
    + rewrite C, O. apply seq_NoDup.
    + intros i Hi Hc. apply Hs in Hi.
      rewrite C, O in Hc. apply in_seq in Hc. lia.
  - assert (Hn : next_oid (step s) = (next_oid s + List.length cs)%nat).
    { unfold step, step_traced. simpl. exact N. }
    rewrite Hn. apply Forall_app. split.
    + apply Forall_forall. intros x Hx.
      assert (H : (oid x < next_oid s)%nat)
        by (apply Hs; apply in_map; exact Hx).
      lia.
    + rewrite C. simpl. apply Forall_forall. intros x Hx.
      assert (H : In (oid x) (seq (next_oid s) (List.length cs)))
        by (rewrite <- O; apply in_map; exact Hx).
      apply in_seq in H. lia.
Qed.

Lemma well_formed_states (n : nat) (s : Simulation) :
  well_formed s -> Forall well_formed (states_after n s).
Proof.
  revert s.
  induction n as [| n IH]; intros s H; cbn [states_after]; constructor.
  - apply well_formed_step. exact H.
  - apply IH. apply well_formed_step. exact H.
Qed.

(* ================================================================== *)
(** ** Properties of the specification *)

Lemma worlds_after_in_range (w : World) (calls : list Call) :
  0 <= resource_max w -> Forall pool_in_range (worlds_after w calls).
Proof.
  revert w.
  induction calls as [| c cs IH]; intros w H; cbn [worlds_after];
    constructor.
  - apply process_action_in_range. exact H.
  - apply IH. rewrite process_action_max. exact H.
Qed.

Lemma step_world (s : Simulation) :
  resource_max (world (step s)) = resource_max (world s) /\
  (0 <= resource_max (world s) -> pool_in_range (world s) ->
   pool_in_range (world (step s))).
Proof.
  unfold step, step_traced, sweep. simpl.
  apply (sweep_world (global_clock s + 1)%Z (map oid (agents s))
           (mkSweep (world s) (agents s) (sim_rng s) (next_oid s)
              (exit_log s) [] [] [])).
Qed.

Lemma states_after_in_range (n : nat) (s : Simulation) :
  0 <= resource_max (world s) -> pool_in_range (world s) ->
  Forall (fun s' => pool_in_range (world s')) (states_after n s).
Proof.
  revert s.
  induction n as [| n IH]; intros s H0 H; cbn [states_after]; constructor.
  - apply step_world; assumption.
  - destruct (step_world s) as [M P]. apply IH.
    + rewrite M. exact H0.
    + apply P; assumption.
Qed.

(** C2.  Whatever the world and the arguments of the calls, the pool is
    between zero and its maximum after each call of a sequence of calls of
    [process_action], provided the maximum is not negative; and so it is
    after every tick of a run that starts with the pool within its bounds. *)
Theorem pool_within_bounds (w : World) (calls : list Call)
    (s : Simulation) (n : nat) :
  0 <= resource_max w ->
  Forall pool_in_range (worlds_after w calls) /\
  (world s = w -> pool_in_range w ->
   Forall (fun s' => pool_in_range (world s')) (states_after n s)).
Proof.
  intro H. split.
  - apply worlds_after_in_range. exact H.
  - intros E Hw. subst w. apply states_after_in_range; assumption.
Qed.

Lemma exit_gate_closed (agent : Person) (g : rng R) :
  10 <= TiR_score agent -> exit_gate agent g = (false, g).
Proof.
  intro H. unfold exit_gate.
  assert (E : Qltb (TiR_score agent) 10.0 = false)
    by (apply Qltb_false; lra).
  rewrite E. reflexivity.
Qed.

(** The exit attempt, once the branch on the action code is taken. *)
Lemma resolve_exit_attempt (w : World) (agent : Person)
    (other : option Person) (g : rng R) :
  resolve_action w agent other 12 g
    = let agent := set_sustenance agent
        (clamp (sustenance agent - 50.0) 0.0 (MAX_STAT K)) in
      let agent := set_health agent
        (clamp (health agent - 10.0) 0.0 (MAX_HEALTH K)) in
      let '(gate, g) := exit_gate agent g in
      if gate then mkResolved w agent other true 1000.0 g
      else
        mkResolved w
          (set_mood agent (clamp (mood agent - 25.0) 0.0 (MAX_STAT K)))
          other false (-100.0) g.
Proof. reflexivity. Qed.

Lemma resolve_never_exits (w : World) (agent : Person)
    (other : option Person) (c : Z) (g : rng R) :
  10 <= TiR_score agent -> r_exited (resolve_action w agent other c g) = false.
Proof.
  intro H. unfold resolve_action.
  repeat break_match; try reflexivity.
  match goal with
  | E : exit_gate _ _ = (true, _) |- _ =>
      rewrite exit_gate_closed in E by exact H; discriminate E
  end.
Qed.

(** C3.  When the alignment of the agent is at least 10, the exit attempt
    returns [exited = false] with the reward of the failed branch, whatever
    the generator would draw: the generator is not even consulted.  No
    other action code exits either. *)
Theorem exit_needs_low_alignment (w : World) (agent : Person)
    (other : option Person) (g : rng R) :
  10 <= TiR_score agent ->
  r_exited (process_action w agent other 12 g) = false /\
  r_delta_U (process_action w agent other 12 g) = -100.0 /\
  r_rng (process_action w agent other 12 g) = g /\
  forall c, r_exited (process_action w agent other c g) = false.
Proof.
  intro H. unfold process_action. rewrite resolve_exit_attempt. cbv zeta.
  rewrite exit_gate_closed by exact H.
  repeat split. intro c. apply resolve_never_exits. exact H.
Qed.

(** The market visit, once the branch on the action code is taken. *)
Lemma resolve_market_visit (w : World) (agent : Person)
    (other : option Person) (g : rng R) :
  position agent = market_pos w -> 50 <= resource_level w ->
  resolve_action w agent other 4 g
    = mkResolved (set_resource_level w (resource_level w - 50.0))
        (set_reputation
           (set_health
              (set_sustenance agent
                 (clamp (sustenance agent + 65.0) 0.0 (MAX_STAT K)))
              (clamp (health agent + 8.0) 0.0 (MAX_HEALTH K)))
           (clamp (reputation agent + 5.0) 0.0 (MAX_STAT K)))
        other false 70.0 g.
Proof.
  intros Hp Hl. unfold resolve_action.
  assert (E1 : pos_eqb (position agent) (market_pos w) = true).
  { rewrite Hp. unfold pos_eqb. rewrite !Z.eqb_refl. reflexivity. }
  assert (E2 : Qleb 50.0 (resource_level w) = true)
    by (apply Qleb_true; lra).
  cbn [Z.leb Z.compare Z.eqb Pos.eqb Pos.compare Pos.compare_cont andb].
  rewrite E1, E2. reflexivity.
Qed.

(** C6.  A market visit on the market cell with at least 50 in the pool
    takes exactly 50 out of the pool (the end of the call then adds the
    regeneration, capped), and leaves the sustenance of the agent at most
    100 and not below what it was. *)
Theorem market_visit_deducts_fifty (w : World) (agent : Person)
    (other : option Person) (g : rng R) :
  position agent = market_pos w ->
  50 <= resource_level w ->
  MAX_STAT K == 100 ->
  resource_level (r_world (resolve_action w (base_cost agent) other 4 g))
    = resource_level w - 50.0 /\
  resource_level (r_world (process_action w agent other 4 g))
    = clamp (resource_level w - 50.0 + market_regen w) 0.0 (resource_max w) /\
  sustenance (r_agent (process_action w agent other 4 g)) <= 100 /\
  (sustenance agent <= 100 ->
   sustenance agent <= sustenance (r_agent (process_action w agent other 4 g)))
  /\
  (sustenance agent < 100 ->
   sustenance agent < sustenance (r_agent (process_action w agent other 4 g))).
Proof.
  intros Hp Hl Hm. unfold process_action.
  rewrite resolve_market_visit by assumption.
  cbn [r_world r_agent resource_level set_resource_level regenerate
       market_regen resource_max].
  split; [reflexivity |]. split; [reflexivity |].
  unfold final_clamp, base_cost. cbn.
  generalize (sustenance agent). intro x.
  repeat split; intros; clamp_cases; lra.
Qed.




Lemma Key_eqb_refl (k : Key) : Key_eqb k k = true.
Proof.
  destruct k as [[[[x y] s] r] c]. unfold Key_eqb, pos_eqb. simpl.
  rewrite !Z.eqb_refl, !Bool.eqb_reflx. reflexivity.
Qed.

Lemma dict_get_set (d : Dict) (k : Key) (v dflt : Q) :
  dict_get (dict_set d k v) k dflt = v.
Proof.
  induction d as [| [k' v'] d IH]; simpl.
  - rewrite Key_eqb_refl. reflexivity.
  - destruct (Key_eqb k' k) eqn:E; simpl; rewrite E; [reflexivity | exact IH].
Qed.

Lemma find_agent_put (p : Person) (pop : list Person) :
  In (oid p) (map oid pop) -> find_agent (oid p) (put_agent p pop) = Some p.
Proof.
  induction pop as [| x pop IH]; simpl; [contradiction |].
  destruct (Nat.eqb_spec (oid x) (oid p)) as [E | E]; intro H.
  - rewrite Nat.eqb_refl. reflexivity.
  - apply Nat.eqb_neq in E. rewrite E. apply IH.
    destruct H as [H | H]; [| exact H].
    apply Nat.eqb_neq in E. contradiction.
Qed.

(** After its turn, the acting agent is in the store with the value table
    of [turn_learner]. *)
Lemma turn_agents_learner (w : World) (a : Person) (pop : list Person)
    (g : rng R) :
  In (oid a) (map oid pop) ->
  exists x,
    find_agent (oid a) (turn_agents w a pop g) = Some x /\
    action_utility_tracker x
      = action_utility_tracker (turn_learner w a pop g).
Proof.
  intro Hin. unfold turn_agents.
  pose proof (turn_learner_oid w a pop g) as Hl. revert Hl.
  generalize (turn_learner w a pop g). intros learner Hl.
  assert (H1 : In (oid learner)
                 (map oid (match r_other (turn_outcome w a pop g) with
                           | Some o => put_agent o pop
                           | None => pop
                           end))).
  { rewrite Hl. destruct (r_other _); [rewrite put_agent_oids |]; exact Hin. }
  revert H1.
  generalize (match r_other (turn_outcome w a pop g) with
              | Some o => put_agent o pop
              | None => pop
              end).
  intros pop1 H1. cbv zeta.
  assert (H3 : find_agent (oid learner)
                 (if r_exited (turn_outcome w a pop g)
                  then map (fun s => if (oid s =? oid learner)%nat then s
                                     else exit_shock s)
                           (put_agent learner pop1)
                  else put_agent learner pop1) = Some learner).
  { destruct (r_exited _); [| apply find_agent_put; exact H1].
    rewrite find_agent_map.
    - rewrite find_agent_put by exact H1. simpl.
      rewrite Nat.eqb_refl. reflexivity.
    - intro x. destruct (oid x =? oid learner)%nat;
        [reflexivity | apply oid_exit_shock]. }
  revert H3.
  generalize (if r_exited (turn_outcome w a pop g)
              then map (fun s => if (oid s =? oid learner)%nat then s
                                 else exit_shock s)
                       (put_agent learner pop1)
              else put_agent learner pop1).
  intros pop3 H3. rewrite <- Hl.
  destruct (if (turn_action a pop g =? 10)%Z then turn_target a pop g
            else None) as [t |].
  - destruct (find_agent t pop3).
    + exists (set_progeny_count learner (progeny_count learner + 1)%Z).
      split; [| reflexivity].
      apply (find_agent_put
               (set_progeny_count learner (progeny_count learner + 1)%Z)).
      simpl. apply find_agent_In in H3.
      apply (in_map oid) in H3. exact H3.
    + exists learner. split; [exact H3 | reflexivity].
  - exists learner. split; [exact H3 | reflexivity].
Qed.

(** C4.  The learning update replaces the value of the key by
    [old + 0.5 * (reward - old)], where [old] is 10.0 for a key never
    seen.  The new value never leaves the interval between the old value
    and the reward, ends included, and is the old value when the two are
    equal.  It is not stated to lie strictly inside: the exact value does,
    but the sum rounded to binary64 can be the reward itself.  In a tick,
    the key of the update is the one computed from the agent as it stood
    before the action was resolved (decay applied, action not yet), and the
    reward is the one the resolution returned. *)
Theorem learning_update (agent : Person) (key : Key) (reward : Q)
    (c : Z) (st : Sweep) (i : nat) (a : Person) :
  (dict_get (action_utility_tracker (q_update agent key reward)) key 10.0
     = dict_get (action_utility_tracker agent) key 10.0
       + 0.5 * (reward - dict_get (action_utility_tracker agent) key 10.0))
  /\
  (dict_get (action_utility_tracker agent) key 10.0 <= reward ->
   dict_get (action_utility_tracker agent) key 10.0
     <= dict_get (action_utility_tracker (q_update agent key reward)) key 10.0
   /\
   dict_get (action_utility_tracker (q_update agent key reward)) key 10.0
     <= reward)
  /\
  (reward <= dict_get (action_utility_tracker agent) key 10.0 ->
   reward
     <= dict_get (action_utility_tracker (q_update agent key reward)) key 10.0
   /\
   dict_get (action_utility_tracker (q_update agent key reward)) key 10.0
     <= dict_get (action_utility_tracker agent) key 10.0)
  /\
  (reward == dict_get (action_utility_tracker agent) key 10.0 ->
   dict_get (action_utility_tracker (q_update agent key reward)) key 10.0
     == dict_get (action_utility_tracker agent) key 10.0)
  /\
  (find_agent i (sw_agents st) = Some a -> acts a = true ->
   let pre := before_action c st a in
   let pop := pop_before_action c st a in
   let g := rng_before_action c st a in
   exists x,
     find_agent i (sw_agents (step_agent c st i)) = Some x /\
     action_utility_tracker x
       = action_utility_tracker
           (q_update pre (_state_key pre (turn_action pre pop g))
              (r_delta_U (turn_outcome (sw_world st) pre pop g)))).
Proof.
  assert (E : dict_get (action_utility_tracker (q_update agent key reward))
                key 10.0
              = dict_get (action_utility_tracker agent) key 10.0
                + 0.5 * (reward
                         - dict_get (action_utility_tracker agent) key 10.0)).
  { unfold q_update. cbn [action_utility_tracker set_action_utility_tracker].
    apply dict_get_set. }
  rewrite E. generalize (dict_get (action_utility_tracker agent) key 10.0).
  intro old.
  split; [reflexivity |]. split; [intro; split; lra |].
  split; [intro; split; lra |]. split; [intro; lra |].
  intros Hf Ha. cbv zeta.
  rewrite (step_agent_acts c _ _ _ Hf Ha), agent_turn_agents.
  unfold pop_before_action, rng_before_action, before_action.
  pose proof (apply_aging_and_decay_oid a c (sw_rng st)) as Ho.
  rewrite (find_agent_oid _ _ _ Hf) in Ho.
  revert Ho. generalize (snd (apply_aging_and_decay a c (sw_rng st))).
  generalize (fst (fst (apply_aging_and_decay a c (sw_rng st)))).
  intros a1 g1 Ho.
  destruct (turn_agents_learner (sw_world st) a1 (put_agent a1 (sw_agents st))
              g1) as [x [Hx Tx]].
  { rewrite put_agent_oids, Ho.
    rewrite <- (find_agent_oid _ _ _ Hf).
    apply in_map. apply (find_agent_In _ _ _ Hf). }
  exists x. rewrite <- Ho. split; [exact Hx |].
  rewrite Tx. unfold turn_learner, q_update.
  cbn [action_utility_tracker set_action_utility_tracker].
  unfold turn_outcome.
  destruct (process_action_agent (sw_world st) a1
              (match turn_target a1 (put_agent a1 (sw_agents st)) g1 with
               | Some t => find_agent t (put_agent a1 (sw_agents st))
               | None => None
               end)
              (turn_action a1 (put_agent a1 (sw_agents st)) g1)
              (snd (decide_action a1 (put_agent a1 (sw_agents st)) g1)))
    as [_ [Ht _]].
  rewrite Ht. reflexivity.
Qed.

Lemma calls_of_actor (l : list (nat * Z)) (e : Event) :
  In e (calls_of l) -> In (actor e) (map fst l).
Proof.
  unfold calls_of. intro H. apply in_flat_map in H.
  destruct H as [ja [Hja He]]. simpl in He.
  destruct He as [E | [E | []]]; subst e; simpl; apply in_map; exact Hja.
Qed.

Lemma step_trace (s : Simulation) :
  NoDup (map oid (agents s)) ->
  exists la,
    snd (step_traced s) = calls_of la /\
    map fst la = filter (acting (agents s)) (map oid (agents s)).
Proof.
  intro Hnd.
  destruct (sweep_trace (global_clock s + 1)%Z (map oid (agents s))
              (mkSweep (world s) (agents s) (sim_rng s) (next_oid s)
                 (exit_log s) [] [] []) Hnd Hnd) as [la [T F]].
  exists la. split; [exact T | exact F].
Qed.

Lemma grow_up_spec (a : Person) :
  turns_survived (grow_up a) = (turns_survived a + 1)%Z /\
  ((CYCLES_PER_DEPENDENT_YEAR K <= turns_survived a + 1)%Z ->
   relationship_status (grow_up a) = Single /\ age_years (grow_up a) = 10%Z)
  /\
  ((turns_survived a + 1 < CYCLES_PER_DEPENDENT_YEAR K)%Z ->
   relationship_status (grow_up a) = relationship_status a /\
   age_years (grow_up a) = age_years a).
Proof.
  unfold grow_up. cbn [turns_survived set_turns_survived].
  destruct (Z.leb_spec (CYCLES_PER_DEPENDENT_YEAR K) (turns_survived a + 1));
    repeat split; intros; try reflexivity; lia.
Qed.

(** C7.  The turn of a [Dependent] agent only counts one more tick for it:
    the world, the generator, the lists of the sweep and the calls made are
    what they were, so neither [decide_action] nor [process_action] is
    called for it; and in a whole tick no call is made on behalf of an agent
    that is [Dependent] when the tick starts.  When the count reaches
    [CYCLES_PER_DEPENDENT_YEAR] the agent becomes [Single] with age 10. *)
Theorem dependent_only_grows (c : Z) (st : Sweep) (i : nat) (a : Person)
    (s : Simulation) (b : Person) :
  (find_agent i (sw_agents st) = Some a ->
   relationship_status a = Dependent ->
   step_agent c st i
     = mkSweep (sw_world st) (put_agent (grow_up a) (sw_agents st))
         (sw_rng st) (sw_next_oid st) (sw_exit_log st) (sw_to_remove st)
         (sw_children st) (sw_trace st)) /\
  turns_survived (grow_up a) = (turns_survived a + 1)%Z /\
  ((CYCLES_PER_DEPENDENT_YEAR K <= turns_survived a + 1)%Z ->
   relationship_status (grow_up a) = Single /\ age_years (grow_up a) = 10%Z)
  /\
  ((turns_survived a + 1 < CYCLES_PER_DEPENDENT_YEAR K)%Z ->
   relationship_status (grow_up a) = relationship_status a /\
   age_years (grow_up a) = age_years a) /\
  (well_formed s -> In b (agents s) -> relationship_status b = Dependent ->
   forall e, In e (snd (step_traced s)) -> actor e <> oid b).
Proof.
  split; [apply step_agent_dependent |].
  destruct (grow_up_spec a) as [H1 [H2 H3]].
  split; [exact H1 |]. split; [exact H2 |]. split; [exact H3 |].
  intros [Hnd _] Hb Hs e He E.
  destruct (step_trace s Hnd) as [la [T F]].
  rewrite T in He. apply calls_of_actor in He.
  rewrite F, E in He. apply filter_In in He. destruct He as [_ He].
  unfold acting in He. rewrite (find_agent_unique _ _ Hnd Hb) in He.
  unfold acts in He. rewrite Hs in He. discriminate He.
Qed.

Lemma grieve_loss_spec (x d : Person) :
  grief_applied x d (fst (grieve_loss x d)) /\
  snd (grieve_loss x d)
    = (if is_partner_name x (name d) then 40 else 15)%Z.
Proof.
  unfold grief_applied, grieve_loss.
  destruct (is_partner_name x (name d)); repeat split.
Qed.



Lemma sweep_removals_of_step (s : Simulation) :
  NoDup (map oid (agents s)) ->
  exists exits,
    sw_exit_log (sweep s) = exit_log s ++ exits /\
    incl exits (sw_to_remove (sweep s)) /\
    (forall a, In a (agents s) ->
               relationship_status a <> Dependent ->
               dies_in_decay a = true ->
               exists d, In d (sw_to_remove (sweep s)) /\
                         oid d = oid a /\ name d = name a).
Proof.
  intro Hnd.
  destruct (sweep_removals (global_clock s + 1)%Z (map oid (agents s))
              (mkSweep (world s) (agents s) (sim_rng s) (next_oid s)
                 (exit_log s) [] [] []) Hnd Hnd)
    as [extra [exits [T [X [I [_ D]]]]]].
  fold (sweep s) in T, X. simpl in T, X, D.
  exists exits. rewrite T. split; [exact X |]. split; [exact I |].
  intros a Ha Hs Hd. apply (D (oid a) a).
  - apply in_map. exact Ha.
  - apply find_agent_unique; assumption.
  - exact Hs.
  - exact Hd.
Qed.

Lemma step_children_fresh (s : Simulation) (x : Person) :
  In x (sw_children (sweep s)) -> (next_oid s <= oid x)%nat.
Proof.
  destruct (sweep_children (global_clock s + 1)%Z (map oid (agents s))
              (mkSweep (world s) (agents s) (sim_rng s) (next_oid s)
                 (exit_log s) [] [] [])) as [cs [C [O _]]].
  fold (sweep s) in C. simpl in C, O. rewrite C. intro Hx.
  assert (H : In (oid x) (seq (next_oid s) (List.length cs)))
    by (rewrite <- O; apply in_map; exact Hx).
  apply in_seq in H. lia.
Qed.

(** An agent of the population is in the next one exactly when the sweep
    did not put it in [agents_to_remove]. *)
Lemma step_keeps (s : Simulation) (x : Person) :
  well_formed s -> In x (agents s) ->
  (In (oid x) (map oid (agents (step s)))
   <-> ~ In (oid x) (map oid (sw_to_remove (sweep s)))).
Proof.
  intros [Hnd Hlt] Hx. rewrite (step_agents s Hnd), map_app, in_app_iff.
  rewrite map_oid_map by (apply grieve_all_oid).
  split.
  - intros [H | H] Hr.
    + apply in_map_iff in H. destruct H as [y [E Hy]].
      apply filter_In in Hy. destruct Hy as [_ Hy].
      apply negb_true_iff in Hy.
      rewrite <- E in Hr. apply in_removed_iff in Hr. congruence.
    + apply in_map_iff in H. destruct H as [y [E Hy]].
      apply step_children_fresh in Hy.
      rewrite Forall_forall in Hlt. specialize (Hlt x Hx). lia.
  - intro Hr. left.
    assert (H : In (oid x) (map oid (sw_agents (sweep s)))).
    { rewrite (sweep_oids s Hnd). apply in_map. exact Hx. }
    apply in_map_iff in H. destruct H as [y [E Hy]].
    apply in_map_iff. exists y. split; [exact E |].
    apply filter_In. split; [exact Hy |].
    apply negb_true_iff. destruct (in_removed y _) eqn:Ey; [| reflexivity].
    apply in_removed_iff in Ey. rewrite E in Ey. contradiction.
Qed.


(** C9.  The population after a tick is made of the agents the sweep did
    not put in [agents_to_remove], each with [grieve_loss] applied for every
    member of that list, followed by the newborn.  Every agent that exits in
    the tick is in that list, like every agent that dies; an agent of the
    population stays exactly when it is not in it.  The grief comes on top
    of the state the sweep left, ideological shock included. *)
Theorem every_removal_is_grieved (s : Simulation) (x b d a : Person)
    (st : Sweep) (i : nat) (pop : list Person) (g : rng R) :
  well_formed s ->
  agents (step s)
    = map (grieve_all (sw_to_remove (sweep s)))
          (survivors (sw_to_remove (sweep s)) (sw_agents (sweep s)))
      ++ sw_children (sweep s) /\
  (In x (agents s) ->
   (In (oid x) (map oid (agents (step s)))
    <-> ~ In (oid x) (map oid (sw_to_remove (sweep s))))) /\
  (exists exits,
     exit_log (step s) = exit_log s ++ exits /\
     incl exits (sw_to_remove (sweep s))) /\
  (r_exited (turn_outcome (sw_world st) a pop g) = true ->
   sw_to_remove (agent_turn st i a pop g)
     = sw_to_remove st ++ [turn_learner (sw_world st) a pop g] /\
   sw_exit_log (agent_turn st i a pop g)
     = sw_exit_log st ++ [turn_learner (sw_world st) a pop g]) /\
  grief_applied b d (fst (grieve_loss b d)).
Proof.
  intros Hwf. pose proof Hwf as [Hnd Hlt].
  split; [apply step_agents; exact Hnd |].
  split; [apply step_keeps; exact Hwf |].
  split; [| split].
  - destruct (sweep_removals_of_step s Hnd) as [exits [X [I _]]].
    exists exits. split; [exact X | exact I].
  - intro He. rewrite agent_turn_to_remove, agent_turn_exit_log, He.
    split; reflexivity.
  - apply grieve_loss_spec.
Qed.

(* ================================================================== *)
(** ** Regeneration of the pool *)

Lemma last_cons_default (x : World) (l : list World) (d : World) :
  last (x :: l) d = last l x.
Proof.
  revert x d. induction l as [| y l IH]; intros x d; [reflexivity |].
  change (last (y :: l) d = last (y :: l) x). rewrite !IH. reflexivity.
Qed.

Lemma last_app_default (l1 l2 : list World) (d : World) :
  last (l1 ++ l2) d = last l2 (last l1 d).
Proof.
  revert d. induction l1 as [| x l1 IH]; intro d; [reflexivity |].
  change (last (x :: (l1 ++ l2)) d = last l2 (last (x :: l1) d)).
  rewrite !last_cons_default. apply IH.
Qed.

Lemma worlds_after_app (w : World) (c1 c2 : list Call) :
  worlds_after w (c1 ++ c2)
    = worlds_after w c1 ++ worlds_after (last (worlds_after w c1) w) c2.
Proof.
  revert w. induction c1 as [| c c1 IH]; intro w; [reflexivity |].
  cbn [app worlds_after]. rewrite IH, last_cons_default. reflexivity.
Qed.

Lemma worlds_after_length (w : World) (calls : list Call) :
  List.length (worlds_after w calls) = List.length calls.
Proof.
  revert w. induction calls as [| c cs IH]; intro w; [reflexivity |].
  cbn [worlds_after List.length]. rewrite IH. reflexivity.
Qed.

Lemma step_agent_calls (c : Z) (st : Sweep) (i : nat) :
  exists calls,
    sw_world (step_agent c st i)
      = last (worlds_after (sw_world st) calls) (sw_world st) /\
    List.length calls = List.length (filter (acting (sw_agents st)) [i]).
Proof.
  unfold acting. cbn [filter].
  destruct (find_agent i (sw_agents st)) as [a |] eqn:Hf.
  - destruct (acts_cases a) as [Hs | [[Hs Hd] | Ha]].
    + rewrite (step_agent_dependent c _ _ _ Hf Hs).
      exists []. unfold acts. rewrite Hs. split; reflexivity.
    + rewrite (step_agent_died c _ _ _ Hf Hs Hd).
      exists []. unfold acts. rewrite Hd, andb_false_r. split; reflexivity.
    + rewrite (step_agent_acts c _ _ _ Hf Ha), agent_turn_world, Ha.
      unfold turn_outcome.
      match goal with
      | |- context [process_action ?w ?a1 ?o ?act ?g] =>
          exists [mkCall a1 o act g]
      end.
      cbn [worlds_after last c_agent c_other c_action c_rng List.length].
      split; reflexivity.
  - rewrite step_agent_absent by exact Hf. exists []. split; reflexivity.
Qed.

Lemma sweep_calls (c : Z) (l : list nat) (st : Sweep) :
  NoDup l -> NoDup (map oid (sw_agents st)) ->
  exists calls,
    sw_world (fold_left (step_agent c) l st)
      = last (worlds_after (sw_world st) calls) (sw_world st) /\
    List.length calls = List.length (filter (acting (sw_agents st)) l).
Proof.
  revert st. induction l as [| i l IH]; intros st Hl Hnd.
  - exists []. split; reflexivity.
  - inversion Hl as [| ? ? Hi Hl']; subst.
    pose proof (step_agent_frame c st i Hnd) as H1.
    destruct (step_agent_calls c st i) as [c1 [W1 L1]].
    destruct (IH (step_agent c st i) Hl') as [c2 [W2 L2]].
    { rewrite (frame_oids _ _ _ H1). exact Hnd. }
    exists (c1 ++ c2). split.
    + cbn [fold_left]. rewrite W2, W1, worlds_after_app, last_app_default.
      reflexivity.
    + rewrite length_app, L1, L2.
      assert (E : filter (acting (sw_agents (step_agent c st i))) l
                  = filter (acting (sw_agents st)) l).
      { apply filter_ext_in. intros j Hj. apply (acting_frame [i]).
        - exact H1.
        - intros [E | []]. subst. contradiction. }
      rewrite E. cbn [filter].
      destruct (acting (sw_agents st) i); reflexivity.
Qed.

Lemma acting_of_population (pop : list Person) :
  NoDup (map oid pop) ->
  filter (acting pop) (map oid pop) = map oid (filter acts pop).
Proof.
  intro Hnd. rewrite filter_map_swap. f_equal.
  apply filter_ext_in. intros a Ha. unfold acting.
  rewrite (find_agent_unique _ _ Hnd Ha). reflexivity.
Qed.

Lemma regenerations_calls_of (l : list (nat * Z)) :
  regenerations (calls_of l) = List.length l.
Proof.
  unfold regenerations, calls_of.
  induction l as [| ja l IH]; [reflexivity |].
  cbn [flat_map app filter is_process List.length]. rewrite IH. reflexivity.
Qed.

(** C1 (amended).  The pool regenerates at the end of every call of
    [process_action], once per call; a tick makes one call for each agent
    that acts in it (not [Dependent], not killed by the decay), and the
    world after the tick is the one these calls lead to. *)
Theorem regeneration_once_per_call (w : World) (a : Person)
    (o : option Person) (c : Z) (g : rng R) (s : Simulation) :
  r_world (process_action w a o c g)
    = regenerate (r_world (resolve_action w (base_cost a) o c g)) /\
  (well_formed s ->
   regenerations (snd (step_traced s)) = List.length (filter acts (agents s))
   /\
   exists calls,
     List.length calls = List.length (filter acts (agents s)) /\
     world (step s) = last (worlds_after (world s) calls) (world s)).
Proof.
  split; [reflexivity |]. intros [Hnd _]. split.
  - destruct (step_trace s Hnd) as [la [T F]].
    rewrite T, regenerations_calls_of, <- (length_map fst), F.
    rewrite (acting_of_population _ Hnd), length_map. reflexivity.
  - destruct (sweep_calls (global_clock s + 1)%Z (map oid (agents s))
                (mkSweep (world s) (agents s) (sim_rng s) (next_oid s)
                   (exit_log s) [] [] []) Hnd Hnd) as [calls [W L]].
    exists calls. split.
    + rewrite L. cbn [sw_agents].
      rewrite (acting_of_population _ Hnd), length_map. reflexivity.
    + exact W.
Qed.


End Model.

(* ================================================================== *)
(** ** Reproducibility

    The identifier drawn by [uuid.uuid4()] is stored in the agent and never
    read.  Forgetting it commutes with every operation of the model, so a
    run is, up to the identifiers, the run in which every identifier is 0. *)

Arguments sw_world {R} _.
Arguments sw_agents {R} _.
Arguments sw_rng {R} _.
Arguments sw_next_oid {R} _.
Arguments sw_exit_log {R} _.
Arguments sw_to_remove {R} _.
Arguments sw_children {R} _.
Arguments sw_trace {R} _.
Arguments r_world {R} _.
Arguments r_agent {R} _.
Arguments r_other {R} _.
Arguments r_exited {R} _.
Arguments r_delta_U {R} _.
Arguments r_rng {R} _.
Arguments turns {R} _.
Arguments seed {R} _.
Arguments world {R} _.
Arguments global_clock {R} _.
Arguments exit_log {R} _.
Arguments agents {R} _.
Arguments metrics {R} _.
Arguments sim_rng {R} _.
Arguments next_oid {R} _.
Arguments forget_resolved {R} _.
Arguments forget_sweep {R} _.
Arguments forget_sim {R} _.
Arguments pruned {R} _ _ _.
Arguments first_sweep {R} _.
Arguments drained {R} _.

(** Reduces the attributes of explicit agents, and nothing else. *)
Ltac attributes :=
  cbn [forget set_uuid oid name uuid gender age_years is_alive
       turns_survived health sustenance mood self_confidence reputation
       personal_goal TiR_score relationship_status partner_name
       progeny_count position last_action action_utility_tracker MEMORY_CAP
       w_Sustenance w_Goal_Progress w_Social_Bond w_Purpose_Goal
       set_age_years set_is_alive set_turns_survived set_health
       set_sustenance set_mood set_self_confidence set_reputation
       set_personal_goal set_TiR_score set_relationship_status
       set_partner_name set_progeny_count set_position
       set_action_utility_tracker fst snd option_map] in *.

(** Reduces the attributes read in a forgotten agent. *)
Ltac getters :=
  cbn [forget set_uuid oid name uuid gender age_years is_alive
       turns_survived health sustenance mood self_confidence reputation
       personal_goal TiR_score relationship_status partner_name
       progeny_count position last_action action_utility_tracker MEMORY_CAP
       w_Sustenance w_Goal_Progress w_Social_Bond w_Purpose_Goal].

(** Destructs a scrutinee of the goal that holds no other [match]. *)
Ltac break_goal :=
  match goal with
  | |- context [match ?e with _ => _ end] =>
      lazymatch e with
      | context [match _ with _ => _ end] => fail
      | _ => destruct e eqn:?
      end
  end.

Section Reproducibility.

Context (K : Constants) (R : RandomModule).

Lemma forget_oid (p : Person) : oid (forget p) = oid p.
Proof. reflexivity. Qed.

Lemma find_agent_forget (i : nat) (pop : list Person) :
  find_agent i (map forget pop) = option_map forget (find_agent i pop).
Proof. apply find_agent_map. exact forget_oid. Qed.

Lemma put_agent_forget (p : Person) (pop : list Person) :
  put_agent (forget p) (map forget pop) = map forget (put_agent p pop).
Proof.
  unfold put_agent. rewrite !map_map. apply map_ext. intro a.
  rewrite !forget_oid. destruct (oid a =? oid p)%nat; reflexivity.
Qed.

Lemma prune_memory_pruned (self : Person) (g : rng R) :
  _prune_memory R self g
    = (set_action_utility_tracker self
         (fst (pruned (action_utility_tracker self) (MEMORY_CAP self) g)),
       snd (pruned (action_utility_tracker self) (MEMORY_CAP self) g)).
Proof.
  unfold _prune_memory, pruned.
  destruct (_ <? _)%Z.
  - destruct (rand_sample R _ _ g). reflexivity.
  - destruct self. reflexivity.
Qed.

Lemma apply_aging_and_decay_forget (a : Person) (c : Z) (g : rng R) :
  apply_aging_and_decay K R (forget a) c g
    = (forget (fst (fst (apply_aging_and_decay K R a c g))),
       snd (fst (apply_aging_and_decay K R a c g)),
       snd (apply_aging_and_decay K R a c g)).
Proof.
  unfold apply_aging_and_decay, get_health_decay_rate.
  rewrite !prune_memory_pruned.
  destruct a. attributes.
  destruct (Qleb _ _ || Qleb _ _); [reflexivity |].
  destruct (_ mod 365 =? 0)%Z; attributes; reflexivity.
Qed.

Lemma grow_up_forget (a : Person) :
  grow_up K (forget a) = forget (grow_up K a).
Proof.
  unfold grow_up. destruct a. attributes. break_goal; reflexivity.
Qed.

Lemma q_update_forget (a : Person) (k : Key) (d : Q) :
  q_update (forget a) k d = forget (q_update a k d).
Proof. reflexivity. Qed.

Lemma exit_shock_forget (s : Person) :
  exit_shock (forget s) = forget (exit_shock s).
Proof.
  unfold exit_shock. destruct s. attributes. break_goal; reflexivity.
Qed.

Lemma state_key_forget (a : Person) (c : Z) :
  _state_key (forget a) c = _state_key a c.
Proof. reflexivity. Qed.

Lemma grieve_loss_forget (a d : Person) :
  grieve_loss K (forget a) (forget d)
    = (forget (fst (grieve_loss K a d)), snd (grieve_loss K a d)).
Proof.
  unfold grieve_loss, is_partner_name. destruct a, d. attributes.
  repeat break_goal; reflexivity.
Qed.

Lemma base_cost_forget (a : Person) :
  base_cost K (forget a) = forget (base_cost K a).
Proof. reflexivity. Qed.

Lemma final_clamp_forget (a : Person) :
  final_clamp K (forget a) = forget (final_clamp K a).
Proof. reflexivity. Qed.

Lemma share_belief_forget (a t : Person) :
  share_belief (forget a) (forget t)
    = (forget (fst (share_belief a t)), snd (share_belief a t)).
Proof.
  unfold share_belief. getters.
  destruct (Qltb 2.0 _); reflexivity.
Qed.

Lemma resolve_action_forget (w : World) (a : Person) (o : option Person)
    (c : Z) (g : rng R) :
  resolve_action K R w (forget a) (option_map forget o) c g
    = forget_resolved (resolve_action K R w a o c g).
Proof.
  unfold forget_resolved, resolve_action, exit_gate, same_cell.
  destruct o as [t |]; cbn [option_map].
  - rewrite share_belief_forget. attributes.
    repeat break_goal; reflexivity.
  - attributes. repeat break_goal; reflexivity.
Qed.

Lemma process_action_forget (w : World) (a : Person) (o : option Person)
    (c : Z) (g : rng R) :
  process_action K R w (forget a) (option_map forget o) c g
    = forget_resolved (process_action K R w a o c g).
Proof.
  unfold process_action.
  rewrite base_cost_forget, resolve_action_forget.
  unfold forget_resolved. cbn [r_world r_agent r_other r_exited r_delta_U r_rng].
  rewrite final_clamp_forget. reflexivity.
Qed.

Lemma create_child_forget (s p : Person) (cap : Q) (o : nat) (u : Z)
    (g : rng R) :
  create_child K R (forget s) (forget p) cap o 0 g
    = (forget (fst (fst (create_child K R s p cap o u g))),
       forget (snd (fst (create_child K R s p cap o u g))),
       snd (create_child K R s p cap o u g)).
Proof.
  unfold create_child. destruct s, p. attributes.
  repeat match goal with
         | |- context [match ?e with (_, _) => _ end] => destruct e
         end.
  reflexivity.
Qed.

Lemma consider_forget (a : Person) (best : option (Z * Q)) (act : Z) :
  consider (forget a) best act = consider a best act.
Proof. reflexivity. Qed.

Lemma decide_action_forget (a : Person) (pop : list Person) (g : rng R) :
  decide_action K R (forget a) (map forget pop) g = decide_action K R a pop g.
Proof.
  unfold decide_action. rewrite filter_map_swap. getters.
  generalize (filter
                (fun a0 : Person =>
                   negb (oid a0 =? oid a)%nat
                   && negb (Status_eqb (relationship_status a0) Dependent))
                pop).
  intro others.
  assert (E : match map forget others with
              | [] => (None, g)
              | o :: _ =>
                  let '(t, g0) := rand_choice R (map forget others) o g in
                  (Some (oid t), g0)
              end
              = match others with
                | [] => (None, g)
                | o :: _ =>
                    let '(t, g0) := rand_choice R others o g in
                    (Some (oid t), g0)
                end).
  { destruct others as [| o l]; [reflexivity |].
    change (map forget (o :: l)) with (forget o :: map forget l).
    cbv iota beta. unfold rand_choice.
    change (forget o :: map forget l) with (map forget (o :: l)).
    rewrite length_map.
    destruct (rand_below R (List.length (o :: l)) g) as [i g1].
    rewrite map_nth. reflexivity. }
  rewrite E.
  destruct (match others with
            | [] => (None, g)
            | o :: _ =>
                let '(t, g0) := rand_choice R others o g in (Some (oid t), g0)
            end) as [target g1].
  destruct (rand_random R g1) as [u g2].
  change (get_exploration_rate K (forget a)) with (get_exploration_rate K a).
  destruct (Qltb u (get_exploration_rate K a)); [reflexivity |].
  destruct (rand_sample R _ _ g2) as [idx g3].
  assert (F : forall l b,
             fold_left (consider (forget a)) l b = fold_left (consider a) l b).
  { induction l as [| x l IH]; intro b; [reflexivity |].
    cbn [fold_left]. rewrite consider_forget. apply IH. }
  rewrite F. reflexivity.
Qed.

Lemma shock_others_forget (learner : Person) (pop : list Person) :
  map (fun s => if (oid s =? oid (forget learner))%nat then s
                else exit_shock s) (map forget pop)
    = map forget
        (map (fun s => if (oid s =? oid learner)%nat then s
                       else exit_shock s) pop).
Proof.
  rewrite !map_map. apply map_ext. intro s.
  rewrite !forget_oid. destruct (oid s =? oid learner)%nat;
    [reflexivity | apply exit_shock_forget].
Qed.

Lemma agent_turn_forget (U : nat -> Z) (st : Sweep R) (i : nat) (a : Person)
    (pop : list Person) (g : rng R) :
  forget_sweep (agent_turn K R U st i a pop g)
    = agent_turn K R no_uuid (forget_sweep st) i (forget a) (map forget pop) g.
Proof.
  unfold agent_turn.
  rewrite decide_action_forget.
  destruct (decide_action K R a pop g) as [[action target] g1].
  rewrite state_key_forget.
  assert (Ho : match target with
               | Some t => find_agent t (map forget pop)
               | None => None
               end
               = option_map forget
                   (match target with
                    | Some t => find_agent t pop
                    | None => None
                    end)).
  { destruct target; [apply find_agent_forget | reflexivity]. }
  rewrite Ho. cbn [sw_world forget_sweep]. rewrite process_action_forget.
  generalize (process_action K R (sw_world st) a
                (match target with
                 | Some t => find_agent t pop
                 | None => None
                 end) action g1).
  intro r. destruct r as [rw ra ro rex rd rg].
  unfold forget_resolved.
  cbn [r_world r_agent r_other r_exited r_delta_U r_rng].
  cbv zeta. rewrite q_update_forget.
  generalize (q_update ra (_state_key a action) rd). intro learner.
  assert (H1 : match option_map forget ro with
               | Some o => put_agent o (map forget pop)
               | None => map forget pop
               end
               = map forget (match ro with
                             | Some o => put_agent o pop
                             | None => pop
                             end)).
  { destruct ro; [apply put_agent_forget | reflexivity]. }
  rewrite H1.
  generalize (match ro with
              | Some o => put_agent o pop
              | None => pop
              end).
  intro pop1. rewrite put_agent_forget.
  generalize (put_agent learner pop1). intro pop2.
  cbn [forget_sweep sw_next_oid sw_exit_log sw_to_remove sw_children
       sw_trace].
  destruct rex; cbv beta iota;
    [ rewrite shock_others_forget;
      generalize (map (fun s => if (oid s =? oid learner)%nat then s
                                else exit_shock s) pop2); intro pop3
    | revert pop2; intro pop3 ];
    (destruct (if (action =? 10)%Z then target else None) as [t |];
     [ rewrite find_agent_forget;
       destruct (find_agent t pop3) as [partner |]; cbn [option_map];
       [ unfold no_uuid; cbv beta;
         rewrite (create_child_forget learner partner (MAX_HEALTH K)
                    (sw_next_oid st) (U (sw_next_oid st)) rg);
         destruct (create_child K R learner partner (MAX_HEALTH K)
                     (sw_next_oid st) (U (sw_next_oid st)) rg)
           as [[ag ch] g2];
         cbn [fst snd]; unfold forget_sweep;
         cbn [sw_world sw_agents sw_rng sw_next_oid sw_exit_log
              sw_to_remove sw_children sw_trace];
         rewrite ?put_agent_forget, ?map_app; reflexivity
       | unfold forget_sweep;
         cbn [sw_world sw_agents sw_rng sw_next_oid sw_exit_log
              sw_to_remove sw_children sw_trace];
         rewrite ?map_app; reflexivity ]
     | unfold forget_sweep;
       cbn [sw_world sw_agents sw_rng sw_next_oid sw_exit_log
            sw_to_remove sw_children sw_trace];
       rewrite ?map_app; reflexivity ]).
Qed.

Lemma step_agent_forget (U : nat -> Z) (c : Z) (st : Sweep R) (i : nat) :
  forget_sweep (step_agent K R U c st i)
    = step_agent K R no_uuid c (forget_sweep st) i.
Proof.
  unfold step_agent. cbn [sw_agents sw_rng forget_sweep].
  rewrite find_agent_forget.
  destruct (find_agent i (sw_agents st)) as [a |]; cbn [option_map];
    [| reflexivity].
  change (relationship_status (forget a)) with (relationship_status a).
  destruct (Status_eqb (relationship_status a) Dependent).
  - rewrite grow_up_forget, put_agent_forget. reflexivity.
  - rewrite apply_aging_and_decay_forget.
    destruct (apply_aging_and_decay K R a c (sw_rng st)) as [[a1 d] g1].
    cbn [fst snd]. rewrite put_agent_forget.
    destruct d.
    + unfold forget_sweep.
      cbn [sw_world sw_agents sw_rng sw_next_oid sw_exit_log
           sw_to_remove sw_children sw_trace].
      rewrite map_app. reflexivity.
    + apply agent_turn_forget.
Qed.

Lemma sweep_fold_forget (U : nat -> Z) (c : Z) (l : list nat) (st : Sweep R) :
  forget_sweep (fold_left (step_agent K R U c) l st)
    = fold_left (step_agent K R no_uuid c) l (forget_sweep st).
Proof.
  revert st. induction l as [| i l IH]; intro st; [reflexivity |].
  cbn [fold_left]. rewrite IH, step_agent_forget. reflexivity.
Qed.

Lemma map_oid_forget (pop : list Person) :
  map oid (map forget pop) = map oid pop.
Proof. rewrite map_map. apply map_ext. exact forget_oid. Qed.

Lemma sweep_forget (U : nat -> Z) (s : Simulation R) :
  forget_sweep (sweep K R U s) = sweep K R no_uuid (forget_sim s).
Proof.
  unfold sweep. rewrite sweep_fold_forget.
  cbn [forget_sim agents global_clock world sim_rng next_oid exit_log].
  rewrite map_oid_forget. reflexivity.
Qed.

Lemma in_removed_forget (a : Person) (l : list Person) :
  in_removed (forget a) (map forget l) = in_removed a l.
Proof.
  unfold in_removed. induction l as [| d l IH]; [reflexivity |].
  cbn [map existsb]. rewrite IH, !forget_oid. reflexivity.
Qed.

Lemma remove_agent_forget (i : nat) (pop : list Person) :
  remove_agent i (map forget pop) = map forget (remove_agent i pop).
Proof.
  induction pop as [| a pop IH]; [reflexivity |].
  cbn [map remove_agent]. rewrite forget_oid.
  destruct (oid a =? i)%nat; [reflexivity |].
  cbn [map]. rewrite IH. reflexivity.
Qed.

Lemma grieve_and_remove_forget (to_remove pop : list Person) (d : Person) :
  grieve_and_remove K (map forget to_remove) (map forget pop) (forget d)
    = map forget (grieve_and_remove K to_remove pop d).
Proof.
  unfold grieve_and_remove.
  rewrite forget_oid, <- remove_agent_forget. f_equal.
  rewrite !map_map. apply map_ext. intro a.
  rewrite in_removed_forget, forget_oid, grieve_loss_forget.
  cbn [fst].
  destruct (negb (oid a =? oid d)%nat && negb (in_removed a to_remove));
    reflexivity.
Qed.

Lemma grieve_fold_forget (to_remove ds pop : list Person) :
  fold_left (grieve_and_remove K (map forget to_remove)) (map forget ds)
    (map forget pop)
    = map forget (fold_left (grieve_and_remove K to_remove) ds pop).
Proof.
  revert pop. induction ds as [| d ds IH]; intro pop; [reflexivity |].
  cbn [map fold_left]. rewrite grieve_and_remove_forget. apply IH.
Qed.

Lemma sum_TiR_forget (pop : list Person) :
  sum_TiR (map forget pop) = sum_TiR pop.
Proof.
  unfold sum_TiR. generalize 0.
  induction pop as [| a pop IH]; intro acc; [reflexivity |].
  cbn [map fold_left]. rewrite IH. reflexivity.
Qed.

Lemma snapshot_forget (c : Z) (exits pop : list Person) (w : World) :
  snapshot c (map forget exits) (map forget pop) w = snapshot c exits pop w.
Proof.
  unfold snapshot. rewrite !length_map, sum_TiR_forget.
  destruct pop; reflexivity.
Qed.

Lemma step_forget (U : nat -> Z) (s : Simulation R) :
  forget_sim (step K R U s) = step K R no_uuid (forget_sim s).
Proof.
  unfold step, step_traced. cbn [fst].
  rewrite <- (sweep_forget U).
  generalize (sweep K R U s). intro sw.
  cbn [forget_sim forget_sweep turns seed world global_clock exit_log agents
       metrics sim_rng next_oid sw_world sw_agents sw_rng sw_next_oid
       sw_exit_log sw_to_remove sw_children sw_trace].
  rewrite grieve_fold_forget, <- map_app, snapshot_forget. reflexivity.
Qed.

Lemma iter_step_forget (U : nat -> Z) (n : nat) (s : Simulation R) :
  forget_sim (Nat.iter n (step K R U) s)
    = Nat.iter n (step K R no_uuid) (forget_sim s).
Proof.
  induction n as [| n IH]; [reflexivity |].
  change (forget_sim (step K R U (Nat.iter n (step K R U) s))
          = step K R no_uuid (Nat.iter n (step K R no_uuid) (forget_sim s))).
  rewrite step_forget, IH. reflexivity.
Qed.

Lemma run_forget (U : nat -> Z) (s : Simulation R) :
  forget_sim (run K R U s) = run K R no_uuid (forget_sim s).
Proof. unfold run. rewrite iter_step_forget. reflexivity. Qed.

Lemma init_forget (U : nat -> Z) (n : Z) (sd : option Z) (ambient : rng R) :
  forget_sim (Simulation_init K R U n sd ambient)
    = Simulation_init K R no_uuid n sd ambient.
Proof. reflexivity. Qed.

(** C8.  Two runs with the same seed, the same number of turns and the
    same constants record the same snapshots, tick by tick, whatever state
    the generator was in before it was seeded and whatever identifiers the
    operating system hands out. *)
Theorem same_seed_same_snapshots (n z : Z) (U1 U2 : nat -> Z)
    (ambient1 ambient2 : rng R) :
  metrics (run K R U1 (Simulation_init K R U1 n (Some z) ambient1))
    = metrics (run K R U2 (Simulation_init K R U2 n (Some z) ambient2)).
Proof.
  change (metrics (forget_sim
                     (run K R U1 (Simulation_init K R U1 n (Some z) ambient1)))
          = metrics (forget_sim
                       (run K R U2
                          (Simulation_init K R U2 n (Some z) ambient2)))).
  rewrite !run_forget, !init_forget. reflexivity.
Qed.

End Reproducibility.

(* ================================================================== *)
(** ** Further properties of person.py, world.py and main.py *)

(** Case analysis on every comparison of floats in the goal and in the
    hypotheses. *)
Ltac split_comparisons :=
  unfold clamp, py_max, py_min, Qltb, Qleb in *;
  repeat match goal with
         | |- context [Qlt_le_dec ?a ?b] => destruct (Qlt_le_dec a b)
         | H : context [Qlt_le_dec ?a ?b] |- _ => destruct (Qlt_le_dec a b)
         end.

Section Extras.

Context (K : Constants) (R : RandomModule) (urandom : nat -> Z).

(** X1.  [clamp] answers within [lo, hi] when the bounds are in order, is
    the identity inside them, answers [lo] below them and [hi] above, and
    answers [lo] whatever the value when the bounds are inverted. *)
Theorem clamp_in_bounds (v lo hi : Q) :
  lo <= clamp v lo hi /\
  (lo <= hi -> clamp v lo hi <= hi) /\
  (lo <= v -> v <= hi -> clamp v lo hi == v) /\
  (v < lo -> clamp v lo hi = lo) /\
  (lo <= hi -> hi < v -> clamp v lo hi == hi) /\
  (hi < lo -> clamp v lo hi = lo) /\
  clamp (clamp v lo hi) lo hi == clamp v lo hi.
Proof.
  repeat split; intros; split_comparisons; try reflexivity; lra.
Qed.

(** X2.  With a non-zero [MAX_STAT], the exploration rate is a probability;
    for a self-confidence between 0 and a positive [MAX_STAT] it is
    [1 - self_confidence / MAX_STAT], so it is 1 at no confidence, 0 at full
    confidence. *)
Theorem exploration_rate_is_probability (self : Person) :
  ~ MAX_STAT K == 0 ->
  0 <= get_exploration_rate K self /\
  get_exploration_rate K self <= 1 /\
  (0 < MAX_STAT K -> 0 <= self_confidence self ->
   self_confidence self <= MAX_STAT K ->
   get_exploration_rate K self == 1 - self_confidence self / MAX_STAT K) /\
  (self_confidence self == 0 -> get_exploration_rate K self == 1) /\
  (self_confidence self == MAX_STAT K -> get_exploration_rate K self == 0).
Proof.
  intro Hz. unfold get_exploration_rate.
  pose proof (clamp_lower (1.0 - self_confidence self / MAX_STAT K) 0.0 1.0)
    as L.
  assert (H01 : 0.0 <= 1.0) by lra.
  pose proof (clamp_upper (1.0 - self_confidence self / MAX_STAT K) 0.0 1.0
                H01) as U.
  split; [lra |]. split; [lra |]. split; [| split].
  - intros Hp H0 H1.
    assert (D0 : 0 <= self_confidence self / MAX_STAT K).
    { apply Qle_shift_div_l; [exact Hp | lra]. }
    assert (D1 : self_confidence self / MAX_STAT K <= 1).
    { apply Qle_shift_div_r; [exact Hp | lra]. }
    rewrite clamp_inside; lra.
  - intro E.
    assert (D : self_confidence self / MAX_STAT K == 0).
    { rewrite E. unfold Qdiv. ring. }
    rewrite clamp_inside; lra.
  - intro E.
    assert (D : self_confidence self / MAX_STAT K == 1).
    { rewrite E. field. exact Hz. }
    rewrite clamp_inside; lra.
Qed.

Lemma decay_rate_cases (self : Person) :
  ((age_years self <= 60)%Z /\ get_health_decay_rate self = 0.05) \/
  ((60 < age_years self)%Z /\
   get_health_decay_rate self
     = 0.05 + inject_Z (age_years self - 60) * 0.02).
Proof.
  unfold get_health_decay_rate.
  destruct (Z.ltb_spec 60 (age_years self)); [right | left];
    split; try reflexivity; lia.
Qed.

(** X3.  The health decay of a tick is 0.05 up to the age of 60 and grows
    by 0.02 for each year beyond: it is at least 0.05 and does not decrease
    with age. *)
Theorem health_decay_grows_with_age (a b : Person) :
  0.05 <= get_health_decay_rate a /\
  ((age_years a <= 60)%Z -> get_health_decay_rate a = 0.05) /\
  ((60 < age_years a)%Z ->
   get_health_decay_rate a == 0.05 + 0.02 * inject_Z (age_years a - 60)) /\
  ((age_years a <= age_years b)%Z ->
   get_health_decay_rate a <= get_health_decay_rate b).
Proof.
  assert (P : forall z : Z, (0 <= z)%Z -> 0 <= inject_Z z).
  { intros z Hz. rewrite (Zle_Qle 0 z) in Hz. exact Hz. }
  assert (M : forall x y : Z, (x <= y)%Z -> inject_Z x <= inject_Z y).
  { intros x y Hxy. rewrite <- Zle_Qle. exact Hxy. }
  repeat split.
  - destruct (decay_rate_cases a) as [[Ha ->] | [Ha ->]]; [lra |].
    pose proof (P (age_years a - 60)%Z ltac:(lia)). lra.
  - intro H. destruct (decay_rate_cases a) as [[Ha E] | [Ha E]];
      [exact E | lia].
  - intro H. destruct (decay_rate_cases a) as [[Ha E] | [Ha E]];
      [lia | rewrite E; ring].
  - intro H.
    destruct (decay_rate_cases a) as [[Ha ->] | [Ha ->]];
      destruct (decay_rate_cases b) as [[Hb ->] | [Hb ->]]; try lra.
    + pose proof (P (age_years b - 60)%Z ltac:(lia)). lra.
    + lia.
    + pose proof (M (age_years a - 60)%Z (age_years b - 60)%Z ltac:(lia)).
      lra.
Qed.

(** X4.  What [apply_aging_and_decay] returns.  It reports a death exactly
    when health or sustenance is at zero after the decay; the dead agent is
    marked not alive, and its count of turns, its age and the generator are
    left alone.  A survivor has one more turn, one more year exactly when
    the new count is a multiple of 365, health and sustenance strictly
    positive, and every stat within its bounds. *)
Theorem aging_and_decay_outcome (self : Person) (c : Z) (g : rng R) :
  0 <= MAX_HEALTH K -> 0 <= MAX_STAT K ->
  (snd (fst (apply_aging_and_decay K R self c g)) = true <->
   health (decayed K self) <= 0 \/ sustenance (decayed K self) <= 0) /\
  (snd (fst (apply_aging_and_decay K R self c g)) = true ->
   is_alive (fst (fst (apply_aging_and_decay K R self c g))) = false /\
   turns_survived (fst (fst (apply_aging_and_decay K R self c g)))
     = turns_survived self /\
   age_years (fst (fst (apply_aging_and_decay K R self c g)))
     = age_years self /\
   snd (apply_aging_and_decay K R self c g) = g) /\
  (snd (fst (apply_aging_and_decay K R self c g)) = false ->
   is_alive (fst (fst (apply_aging_and_decay K R self c g)))
     = is_alive self /\
   turns_survived (fst (fst (apply_aging_and_decay K R self c g)))
     = (turns_survived self + 1)%Z /\
   age_years (fst (fst (apply_aging_and_decay K R self c g)))
     = (if ((turns_survived self + 1) mod 365 =? 0)%Z
        then age_years self + 1 else age_years self)%Z /\
   0 < health (fst (fst (apply_aging_and_decay K R self c g))) /\
   0 < sustenance (fst (fst (apply_aging_and_decay K R self c g))) /\
   bounded K
     (set_TiR_score (fst (fst (apply_aging_and_decay K R self c g))) 0)).
Proof.
  intros HH HS.
  pose proof (apply_aging_and_decay_flag K R self c g) as F.
  split; [| split].
  - rewrite F. unfold dies_in_decay. rewrite orb_true_iff, !Qleb_true.
    split; intros [H | H]; [left | right | left | right]; lra.
  - intro D. rewrite F in D.
    rewrite (apply_aging_and_decay_died K R self c g D).
    repeat split.
  - intro D. rewrite F in D. unfold dies_in_decay in D.
    apply orb_false_iff in D. destruct D as [D1 D2].
    apply Qleb_false in D1. apply Qleb_false in D2.
    unfold apply_aging_and_decay.
    change (set_sustenance
              (set_health self
                 (clamp (health self - get_health_decay_rate self) 0.0
                    (MAX_HEALTH K)))
              (clamp
                 (sustenance
                    (set_health self
                       (clamp (health self - get_health_decay_rate self) 0.0
                          (MAX_HEALTH K))) - 0.005) 0.0 (MAX_STAT K)))
      with (decayed K self).
    assert (E : Qleb (health (decayed K self)) 0.0
                || Qleb (sustenance (decayed K self)) 0.0 = false).
    { apply orb_false_iff. split; apply Qleb_false; lra. }
    rewrite E.
    assert (BH : health (decayed K self) <= MAX_HEALTH K).
    { unfold decayed. cbn [health set_health set_sustenance].
      apply clamp_upper. lra. }
    assert (BS : sustenance (decayed K self) <= MAX_STAT K).
    { unfold decayed. cbn [sustenance set_health set_sustenance].
      apply clamp_upper. lra. }
    revert D1 D2 BH BS.
    assert (EA : is_alive (decayed K self) = is_alive self) by reflexivity.
    assert (ET : turns_survived (decayed K self) = turns_survived self)
      by reflexivity.
    assert (EY : age_years (decayed K self) = age_years self)
      by reflexivity.
    revert EA ET EY. generalize (decayed K self). intros p EA ET EY D1 D2 BH BS.
    rewrite !prune_memory_pruned.
    cbn [turns_survived set_turns_survived]. rewrite ET.
    unfold bounded.
    destruct ((turns_survived self + 1) mod 365 =? 0)%Z;
      cbn [fst snd is_alive turns_survived age_years health sustenance mood
           self_confidence reputation TiR_score set_age_years
           set_turns_survived set_action_utility_tracker set_mood
           set_self_confidence set_reputation set_TiR_score];
      rewrite ?EA, ?EY;
      pose proof (clamp_lower (mood p) 0.0 (MAX_STAT K));
      pose proof (clamp_lower (self_confidence p) 0.0 (MAX_STAT K));
      pose proof (clamp_lower (reputation p) 0.0 (MAX_STAT K));
      pose proof (clamp_upper (mood p) 0.0 (MAX_STAT K) ltac:(lra));
      pose proof (clamp_upper (self_confidence p) 0.0 (MAX_STAT K)
                    ltac:(lra));
      pose proof (clamp_upper (reputation p) 0.0 (MAX_STAT K) ltac:(lra));
      repeat split; try reflexivity; lra.
Qed.

Lemma share_belief_range (self target : Person) :
  0 <= TiR_score (fst (share_belief self target)) /\
  TiR_score (fst (share_belief self target)) <= 100 /\
  fst (share_belief self target)
    = set_TiR_score target (TiR_score (fst (share_belief self target))).
Proof.
  unfold share_belief.
  pose proof (clamp_lower
                (TiR_score target
                 + (TiR_score self - TiR_score target) * 0.15
                   * ((reputation self + 50.0) / 100.0)) 0.0 100.0) as L.
  pose proof (clamp_upper
                (TiR_score target
                 + (TiR_score self - TiR_score target) * 0.15
                   * ((reputation self + 50.0) / 100.0)) 0.0 100.0
                ltac:(lra)) as U.
  match goal with
  | |- context [if ?c then _ else _] => destruct c
  end; cbn [fst snd TiR_score set_TiR_score];
    (split; [lra | split; [lra | reflexivity]]).
Qed.

(** X7.  [share_belief] leaves the target's alignment in [0, 100] whatever
    it was, changes nothing else in the target, and pays either nothing or
    more than 10: five times a shift whose size exceeds 2. *)
Theorem share_belief_outcome (self target : Person) :
  0 <= TiR_score (fst (share_belief self target)) /\
  TiR_score (fst (share_belief self target)) <= 100 /\
  fst (share_belief self target)
    = set_TiR_score target (TiR_score (fst (share_belief self target))) /\
  (snd (share_belief self target) = 0.0 \/
   10 < snd (share_belief self target)) /\
  (TiR_score self == TiR_score target ->
   snd (share_belief self target) = 0.0).
Proof.
  unfold share_belief.
  set (change := (TiR_score self - TiR_score target) * 0.15
                 * ((reputation self + 50.0) / 100.0)).
  pose proof (clamp_lower (TiR_score target + change) 0.0 100.0) as L.
  pose proof (clamp_upper (TiR_score target + change) 0.0 100.0
                ltac:(lra)) as U.
  assert (Z0 : TiR_score self == TiR_score target -> change == 0).
  { intro E. unfold change. rewrite E. ring. }
  destruct (Qltb 2.0 (Qabs change)) eqn:E; cbn [fst snd TiR_score set_TiR_score].
  - apply Qltb_true in E.
    split; [lra |]. split; [lra |]. split; [reflexivity |]. split.
    + right. lra.
    + intro H. apply Z0 in H. rewrite H in E. cbn in E. lra.
  - split; [lra |]. split; [lra |]. split; [reflexivity |]. split.
    + left. reflexivity.
    + intros _. reflexivity.
Qed.

Lemma Key_eqb_eq (a b : Key) : Key_eqb a b = true <-> a = b.
Proof.
  destruct a as [[[[x1 y1] s1] r1] c1], b as [[[[x2 y2] s2] r2] c2].
  unfold Key_eqb, pos_eqb. cbn [fst snd].
  rewrite !andb_true_iff, !Z.eqb_eq, !Bool.eqb_true_iff.
  split.
  - intros [[[[-> ->] ->] ->] ->]. reflexivity.
  - intro H. inversion H. subst. repeat split.
Qed.

Lemma Key_eqb_neq (a b : Key) : Key_eqb a b = false <-> a <> b.
Proof.
  destruct (Key_eqb a b) eqn:E.
  - apply Key_eqb_eq in E. split; [discriminate | contradiction].
  - split; [| reflexivity]. intros _ H. apply Key_eqb_eq in H. congruence.
Qed.

Lemma key_in_or_not (k : Key) (l : list Key) : In k l \/ ~ In k l.
Proof.
  induction l as [| x l [IH | IH]].
  - right. intros [].
  - left. right. exact IH.
  - destruct (Key_eqb x k) eqn:E.
    + left. left. apply Key_eqb_eq. exact E.
    + right. apply Key_eqb_neq in E. intros [H | H]; contradiction.
Qed.

Lemma dict_get_set_other (d : Dict) (k k' : Key) (v dflt : Q) :
  k' <> k -> dict_get (dict_set d k v) k' dflt = dict_get d k' dflt.
Proof.
  intro H. induction d as [| [k0 v0] d IH]; cbn [dict_set dict_get].
  - assert (E : Key_eqb k k' = false)
      by (apply Key_eqb_neq; congruence).
    rewrite E. reflexivity.
  - destruct (Key_eqb k0 k) eqn:E; cbn [dict_get].
    + apply Key_eqb_eq in E. subst k0.
      assert (E' : Key_eqb k k' = false)
        by (apply Key_eqb_neq; congruence).
      rewrite E'. reflexivity.
    + destruct (Key_eqb k0 k'); [reflexivity | exact IH].
Qed.

Lemma dict_set_keys (d : Dict) (k : Key) (v : Q) :
  (In k (dict_keys d) -> dict_keys (dict_set d k v) = dict_keys d) /\
  (~ In k (dict_keys d) -> dict_keys (dict_set d k v) = dict_keys d ++ [k]).
Proof.
  unfold dict_keys.
  induction d as [| [k0 v0] d [IH1 IH2]]; cbn [dict_set map fst app In].
  - split; [contradiction | reflexivity].
  - destruct (Key_eqb k0 k) eqn:E; cbn [map fst].
    + split; [reflexivity |]. apply Key_eqb_eq in E. intro H.
      exfalso. apply H. left. exact E.
    + apply Key_eqb_neq in E. split; intro H.
      * rewrite IH1; [reflexivity |]. destruct H as [H | H];
          [contradiction | exact H].
      * rewrite IH2; [reflexivity |]. intro H'. apply H. right. exact H'.
Qed.

(** X6.  The learning update writes the entry of its key and no other: the
    value of every other key is what it was, a key already in the table
    keeps its place, a new key is appended, the keys stay distinct, and no
    other attribute of the agent changes. *)
Theorem learning_update_touches_one_key (agent : Person) (key key' : Key)
    (reward dflt : Q) :
  (key' <> key ->
   dict_get (action_utility_tracker (q_update agent key reward)) key' dflt
     = dict_get (action_utility_tracker agent) key' dflt) /\
  (In key (dict_keys (action_utility_tracker agent)) ->
   dict_keys (action_utility_tracker (q_update agent key reward))
     = dict_keys (action_utility_tracker agent)) /\
  (~ In key (dict_keys (action_utility_tracker agent)) ->
   dict_keys (action_utility_tracker (q_update agent key reward))
     = dict_keys (action_utility_tracker agent) ++ [key]) /\
  (distinct_keys (action_utility_tracker agent) ->
   distinct_keys (action_utility_tracker (q_update agent key reward))) /\
  q_update agent key reward
    = set_action_utility_tracker agent
        (action_utility_tracker (q_update agent key reward)).
Proof.
  unfold q_update. cbn [action_utility_tracker set_action_utility_tracker].
  generalize (dict_get (action_utility_tracker agent) key 10.0
              + 0.5 * (reward
                       - dict_get (action_utility_tracker agent) key 10.0)).
  intro v.
  destruct (dict_set_keys (action_utility_tracker agent) key v) as [K1 K2].
  split; [intro H; apply dict_get_set_other; exact H |].
  split; [exact K1 |]. split; [exact K2 |]. split; [| reflexivity].
  unfold distinct_keys. intro Hd.
  destruct (key_in_or_not key (dict_keys (action_utility_tracker agent)))
    as [Hi | Hn].
  - rewrite K1; assumption.
  - rewrite K2 by exact Hn. apply NoDup_app.
    + exact Hd.
    + repeat constructor. intros [].
    + intros a Ha [E | []]. subst. contradiction.
Qed.

(** X8.  [create_child] returns the parent with one more offspring and
    nothing else changed, and a child that is [Dependent], of age 0 with no
    turn survived, alive, at the parent's cell, with the mean of the two
    alignments, an empty table and the parent's memory cap; its health and
    its sustenance are the same number, within [0, max_health_cap] when the
    cap is not negative. *)
Theorem create_child_outcome (self partner : Person) (cap : Q) (o : nat)
    (u : Z) (g : rng R) :
  fst (fst (create_child K R self partner cap o u g))
    = set_progeny_count self (progeny_count self + 1)%Z /\
  relationship_status (snd (fst (create_child K R self partner cap o u g)))
    = Dependent /\
  age_years (snd (fst (create_child K R self partner cap o u g))) = 0%Z /\
  turns_survived (snd (fst (create_child K R self partner cap o u g)))
    = 0%Z /\
  is_alive (snd (fst (create_child K R self partner cap o u g))) = true /\
  position (snd (fst (create_child K R self partner cap o u g)))
    = position self /\
  TiR_score (snd (fst (create_child K R self partner cap o u g)))
    = (TiR_score self + TiR_score partner) / 2.0 /\
  action_utility_tracker
    (snd (fst (create_child K R self partner cap o u g))) = [] /\
  MEMORY_CAP (snd (fst (create_child K R self partner cap o u g)))
    = MEMORY_CAP self /\
  partner_name (snd (fst (create_child K R self partner cap o u g)))
    = None /\
  health (snd (fst (create_child K R self partner cap o u g)))
    = sustenance (snd (fst (create_child K R self partner cap o u g))) /\
  (0 <= cap ->
   0 <= health (snd (fst (create_child K R self partner cap o u g))) /\
   health (snd (fst (create_child K R self partner cap o u g))) <= cap).
Proof.
  unfold create_child.
  repeat match goal with
         | |- context [match ?e with (_, _) => _ end] => destruct e
         end.
  cbn [fst snd].
  repeat (split; [reflexivity |]).
  intro Hc. cbn [health set_health set_sustenance Person_init].
  match goal with
  | |- 0 <= clamp ?v _ _ /\ _ =>
      pose proof (clamp_lower v 0.0 cap);
      pose proof (clamp_upper v 0.0 cap ltac:(lra))
  end.
  split; lra.
Qed.

Lemma dict_del_length (d : Dict) (k : Key) :
  In k (dict_keys d) ->
  (List.length (dict_del d k) + 1 = List.length d)%nat.
Proof.
  unfold dict_keys.
  induction d as [| [k0 v0] d IH]; cbn [dict_del map fst In List.length];
    [contradiction |].
  destruct (Key_eqb k0 k) eqn:E; intro H.
  - lia.
  - apply Key_eqb_neq in E. destruct H as [H | H]; [contradiction |].
    cbn [List.length]. rewrite <- (IH H). lia.
Qed.

Lemma dict_del_incl (d : Dict) (k : Key) : incl (dict_del d k) d.
Proof.
  induction d as [| [k0 v0] d IH]; cbn [dict_del]; [apply incl_refl |].
  destruct (Key_eqb k0 k).
  - apply incl_tl. apply incl_refl.
  - intros x [Hx | Hx]; [left; exact Hx | right; apply IH; exact Hx].
Qed.

Lemma dict_del_keeps (d : Dict) (k k' : Key) :
  In k' (dict_keys d) -> k' <> k -> In k' (dict_keys (dict_del d k)).
Proof.
  unfold dict_keys.
  induction d as [| [k0 v0] d IH]; cbn [dict_del map fst In];
    [contradiction |].
  intros H Hn. destruct (Key_eqb k0 k) eqn:E.
  - apply Key_eqb_eq in E. subst k0.
    destruct H as [H | H]; [congruence | exact H].
  - cbn [map fst In]. destruct H as [H | H];
      [left; exact H | right; apply IH; assumption].
Qed.

Lemma dict_del_distinct (d : Dict) (k : Key) :
  distinct_keys d -> distinct_keys (dict_del d k).
Proof.
  unfold distinct_keys, dict_keys.
  induction d as [| [k0 v0] d IH]; cbn [dict_del map fst]; intro H;
    [exact H |].
  inversion H as [| ? ? Hn Hd]; subst.
  destruct (Key_eqb k0 k); [exact Hd |].
  cbn [map fst]. constructor; [| apply IH; exact Hd].
  intro Hi. apply Hn.
  apply in_map_iff in Hi. destruct Hi as [x [E Hx]].
  apply in_map_iff. exists x. split; [exact E |].
  apply (dict_del_incl d k). exact Hx.
Qed.

Lemma dict_del_many (ks : list Key) (d : Dict) :
  NoDup ks -> incl ks (dict_keys d) ->
  (List.length (fold_left dict_del ks d) + List.length ks
   = List.length d)%nat /\
  incl (fold_left dict_del ks d) d /\
  (distinct_keys d -> distinct_keys (fold_left dict_del ks d)).
Proof.
  revert d. induction ks as [| k ks IH]; intros d Hnd Hin;
    cbn [fold_left List.length].
  - split; [lia |]. split; [apply incl_refl | intro H; exact H].
  - inversion Hnd as [| ? ? Hk Hnd']; subst.
    destruct (IH (dict_del d k) Hnd') as [L [I D]].
    { intros k' Hk'. apply dict_del_keeps.
      - apply Hin. right. exact Hk'.
      - intro E. subst. contradiction. }
    pose proof (dict_del_length d k (Hin k (or_introl eq_refl))) as L1.
    split; [lia |]. split.
    + intros x Hx. apply (dict_del_incl d k). apply I. exact Hx.
    + intro H. apply D. apply dict_del_distinct. exact H.
Qed.

Lemma sampled_keys (keys : list Key) (dflt : Key) (idx : list nat) :
  NoDup keys -> NoDup idx ->
  Forall (fun i => (i < List.length keys)%nat) idx ->
  NoDup (map (fun i => nth i keys dflt) idx) /\
  incl (map (fun i => nth i keys dflt) idx) keys.
Proof.
  intros Hk Hi Hlt. rewrite Forall_forall in Hlt. split.
  - induction Hi as [| i idx Hn Hi IH]; cbn [map]; constructor.
    + intro H. apply in_map_iff in H. destruct H as [j [E Hj]].
      apply Hn.
      assert (j = i); [| subst; exact Hj].
      apply (proj1 (NoDup_nth keys dflt) Hk).
      * apply Hlt. right. exact Hj.
      * apply Hlt. left. reflexivity.
      * exact E.
    + apply IH. intros j Hj. apply Hlt. right. exact Hj.
  - intros k H. apply in_map_iff in H. destruct H as [i [E Hi']].
    subst k. apply nth_In. apply Hlt. exact Hi'.
Qed.

(** X5.  [_prune_memory] touches neither the agent nor the generator while
    the table holds no more entries than the cap.  Beyond a non-negative
    cap, when [random.sample] hands back as many distinct indices as asked,
    the table comes out with exactly [MEMORY_CAP] entries, each one an
    entry it held before, its keys still distinct. *)
Theorem prune_memory_outcome (self : Person) (g : rng R) :
  ((Z.of_nat (List.length (action_utility_tracker self))
    <= MEMORY_CAP self)%Z ->
   _prune_memory R self g = (self, g)) /\
  (distinct_keys (action_utility_tracker self) ->
   (0 <= MEMORY_CAP self
    < Z.of_nat (List.length (action_utility_tracker self)))%Z ->
   sample_ok R (List.length (action_utility_tracker self))
     (Z.to_nat
        (Z.of_nat (List.length (action_utility_tracker self))
         - MEMORY_CAP self)) g ->
   Z.of_nat
     (List.length (action_utility_tracker (fst (_prune_memory R self g))))
     = MEMORY_CAP self /\
   incl (action_utility_tracker (fst (_prune_memory R self g)))
     (action_utility_tracker self) /\
   distinct_keys (action_utility_tracker (fst (_prune_memory R self g))) /\
   fst (_prune_memory R self g)
     = set_action_utility_tracker self
         (action_utility_tracker (fst (_prune_memory R self g)))).
Proof.
  unfold _prune_memory. split.
  - intro H.
    destruct (Z.ltb_spec (MEMORY_CAP self)
                (Z.of_nat (List.length (action_utility_tracker self))));
      [lia | reflexivity].
  - intros Hd Hc [SL [SN SF]].
    destruct (Z.ltb_spec (MEMORY_CAP self)
                (Z.of_nat (List.length (action_utility_tracker self))));
      [| lia].
    destruct (rand_sample R (List.length (action_utility_tracker self))
                (Z.to_nat
                   (Z.of_nat (List.length (action_utility_tracker self))
                    - MEMORY_CAP self)) g) as [idx g1].
    cbn [fst] in *.
    cbn [action_utility_tracker set_action_utility_tracker].
    destruct (sampled_keys (dict_keys (action_utility_tracker self))
                ((0, 0)%Z, false, false, 0%Z) idx Hd SN) as [KN KI].
    { unfold dict_keys. rewrite length_map. exact SF. }
    destruct (dict_del_many _ (action_utility_tracker self) KN KI)
      as [L [I D]].
    rewrite length_map, SL in L.
    split; [lia |]. split; [exact I |]. split; [exact (D Hd) | reflexivity].
Qed.

(** The test of the grid bounds, as a proposition. *)
Lemma in_grid_test (n x y : Z) :
  (0 <=? x)%Z && (x <? n)%Z && (0 <=? y)%Z && (y <? n)%Z = true
  <-> in_grid n (x, y).
Proof.
  unfold in_grid. cbn [fst snd].
  rewrite !andb_true_iff, !Z.leb_le, !Z.ltb_lt. tauto.
Qed.

(** The movement branch of [process_action]. *)
Lemma resolve_movement (w : World) (a : Person) (o : option Person) (c : Z)
    (g : rng R) :
  (0 <= c <= 3)%Z ->
  (in_grid (grid_size w) (cell_ahead (position a) c) ->
   resolve_action K R w a o c g
     = mkResolved R w (set_position a (cell_ahead (position a) c)) o false
         1.0 g) /\
  (~ in_grid (grid_size w) (cell_ahead (position a) c) ->
   resolve_action K R w a o c g = mkResolved R w a o false (-5.0) g).
Proof.
  intro Hc. unfold resolve_action, cell_ahead.
  assert (E : (0 <=? c)%Z && (c <=? 3)%Z = true).
  { apply andb_true_iff. rewrite !Z.leb_le. exact Hc. }
  rewrite E. destruct (position a) as [x y]. cbn [fst snd].
  assert (T : forall p : Z * Z,
             (let '(x0, y0) := p in
              if (0 <=? x0)%Z && (x0 <? grid_size w)%Z && (0 <=? y0)%Z
                 && (y0 <? grid_size w)%Z
              then mkResolved R w (set_position a (x0, y0)) o false 1.0 g
              else mkResolved R w a o false (-5.0) g)
             = if (0 <=? fst p)%Z && (fst p <? grid_size w)%Z
                  && (0 <=? snd p)%Z && (snd p <? grid_size w)%Z
               then mkResolved R w (set_position a p) o false 1.0 g
               else mkResolved R w a o false (-5.0) g).
  { intros [x0 y0]. reflexivity. }
  rewrite T.
  generalize (if (c =? 0)%Z then (x, (y + 1)%Z)
              else if (c =? 1)%Z then (x, (y - 1)%Z)
              else if (c =? 2)%Z then ((x + 1)%Z, y)
              else if (c =? 3)%Z then ((x - 1)%Z, y) else (x, y)).
  intros [x1 y1]. cbn [fst snd].
  destruct ((0 <=? x1)%Z && (x1 <? grid_size w)%Z && (0 <=? y1)%Z
            && (y1 <? grid_size w)%Z) eqn:B.
  - apply in_grid_test in B. split; [reflexivity | contradiction].
  - split; [| reflexivity]. intro H. apply in_grid_test in H. congruence.
Qed.

(** X9.  A movement action (codes 0 to 3) puts the agent on the cell ahead
    and pays 1 when that cell is in the grid; otherwise the agent stays
    where it is and pays 5.  It neither exits, nor draws, nor takes from
    the pool. *)
Theorem movement_outcome (w : World) (a : Person) (o : option Person)
    (c : Z) (g : rng R) :
  (0 <= c <= 3)%Z ->
  (in_grid (grid_size w) (cell_ahead (position a) c) ->
   position (r_agent (process_action K R w a o c g))
     = cell_ahead (position a) c /\
   r_delta_U (process_action K R w a o c g) = 1.0) /\
  (~ in_grid (grid_size w) (cell_ahead (position a) c) ->
   position (r_agent (process_action K R w a o c g)) = position a /\
   r_delta_U (process_action K R w a o c g) = -5.0) /\
  r_exited (process_action K R w a o c g) = false /\
  r_rng (process_action K R w a o c g) = g /\
  r_other (process_action K R w a o c g) = o /\
  r_world (process_action K R w a o c g) = regenerate w.
Proof.
  intro Hc. unfold process_action.
  destruct (resolve_movement w (base_cost K a) o c g Hc) as [M1 M2].
  change (position (base_cost K a)) with (position a) in *.
  split; [| split].
  - intro H. rewrite (M1 H). split; reflexivity.
  - intro H. rewrite (M2 H). split; reflexivity.
  - assert (D : in_grid (grid_size w) (cell_ahead (position a) c) \/
                ~ in_grid (grid_size w) (cell_ahead (position a) c)).
    { unfold in_grid. lia. }
    destruct D as [H | H]; [rewrite (M1 H) | rewrite (M2 H)];
      repeat split.
Qed.




Lemma final_clamp_bounded (x : Person) :
  0 <= MAX_HEALTH K -> 0 <= MAX_STAT K ->
  0 <= TiR_score x -> TiR_score x <= 100 ->
  bounded K (final_clamp K x).
Proof.
  intros HH HS T0 T1. unfold bounded, final_clamp.
  cbn [health sustenance mood self_confidence reputation TiR_score
       set_health set_sustenance set_mood set_reputation
       set_self_confidence].
  pose proof (clamp_lower (health x) 0.0 (MAX_HEALTH K)).
  pose proof (clamp_upper (health x) 0.0 (MAX_HEALTH K) ltac:(lra)).
  pose proof (clamp_lower (sustenance x) 0.0 (MAX_STAT K)).
  pose proof (clamp_upper (sustenance x) 0.0 (MAX_STAT K) ltac:(lra)).
  pose proof (clamp_lower (mood x) 0.0 (MAX_STAT K)).
  pose proof (clamp_upper (mood x) 0.0 (MAX_STAT K) ltac:(lra)).
  pose proof (clamp_lower (self_confidence x) 0.0 (MAX_STAT K)).
  pose proof (clamp_upper (self_confidence x) 0.0 (MAX_STAT K) ltac:(lra)).
  pose proof (clamp_lower (reputation x) 0.0 (MAX_STAT K)).
  pose proof (clamp_upper (reputation x) 0.0 (MAX_STAT K) ltac:(lra)).
  repeat split; lra.
Qed.

(** X10.  Whatever the state of the agent before the call and whatever the
    action code, [process_action] hands back an agent whose health is in
    [0, MAX_HEALTH] and whose sustenance, mood, self-confidence and
    reputation are in [0, MAX_STAT], its alignment untouched; a target
    whose stats were within bounds still has them within bounds. *)
Theorem process_action_clamps (w : World) (a : Person) (o : option Person)
    (c : Z) (g : rng R) (t t' : Person) :
  0 <= MAX_HEALTH K -> 0 <= MAX_STAT K ->
  bounded K
    (set_TiR_score (r_agent (process_action K R w a o c g)) 0) /\
  TiR_score (r_agent (process_action K R w a o c g)) = TiR_score a /\
  (o = Some t -> bounded K t ->
   r_other (process_action K R w a o c g) = Some t' -> bounded K t').
Proof.
  intros HH HS. split; [| split].
  - unfold process_action. cbn [r_agent].
    change (set_TiR_score
              (final_clamp K
                 (r_agent (resolve_action K R w (base_cost K a) o c g))) 0)
      with (final_clamp K
              (set_TiR_score
                 (r_agent (resolve_action K R w (base_cost K a) o c g)) 0)).
    apply final_clamp_bounded; try assumption;
      cbn [TiR_score set_TiR_score]; lra.
  - apply process_action_agent.
  - intros Ho Hb Ht.
    destruct (process_action_other K R w a o c g) as [E | [t0 [Ho' [_ [_ E]]]]].
    + congruence.
    + rewrite Ho in Ho'. inversion Ho'; subst t0.
      rewrite E in Ht. inversion Ht; subst t'.
      destruct (share_belief_range (base_cost K a) t) as [L [U F]].
      rewrite F. unfold bounded in *.
      cbn [health sustenance mood self_confidence reputation TiR_score
           set_TiR_score].
      tauto.
Qed.

(** X11.  An action code outside 0..12, and belief sharing without a target
    on the same cell, resolve to nothing: the agent pays the base cost, the
    pool regenerates, the reward is 0, and there is neither exit nor
    draw. *)
Theorem unknown_action_is_idle (w : World) (a : Person) (o : option Person)
    (c : Z) (g : rng R) :
  (c < 0)%Z \/ (12 < c)%Z \/ (c = 11%Z /\ same_cell a o = false) ->
  process_action K R w a o c g
    = mkResolved R (regenerate w) (final_clamp K (base_cost K a)) o false
        0.0 g.
Proof.
  intro H. unfold process_action.
  assert (E : resolve_action K R w (base_cost K a) o c g
              = mkResolved R w (base_cost K a) o false 0.0 g).
  { unfold resolve_action.
    change (same_cell (base_cost K a) o) with (same_cell a o).
    destruct H as [H | [H | [H S]]].
    - destruct (Z.leb_spec 0 c); [lia |]. cbn [andb].
      destruct (Z.eqb_spec c 4); [lia |].
      destruct (Z.eqb_spec c 5); [lia |].
      destruct (Z.leb_spec 6 c); [lia |]. cbn [andb].
      destruct (Z.eqb_spec c 11); [lia |]. cbn [andb].
      destruct (Z.eqb_spec c 12); [lia |]. reflexivity.
    - destruct (Z.leb_spec c 3); [lia |]. rewrite andb_false_r.
      destruct (Z.eqb_spec c 4); [lia |].
      destruct (Z.eqb_spec c 5); [lia |].
      destruct (Z.leb_spec c 10); [lia |]. rewrite andb_false_r.
      destruct (Z.eqb_spec c 11); [lia |]. cbn [andb].
      destruct (Z.eqb_spec c 12); [lia |]. reflexivity.
    - subst c. rewrite S. reflexivity. }
  rewrite E. reflexivity.
Qed.

(** X12.  A market visit away from the market cell, or with less than 50
    in the pool, takes nothing from the pool: the agent loses 10 of
    sustenance on top of the base cost and the reward is -15. *)
Theorem market_visit_fails (w : World) (a : Person) (o : option Person)
    (g : rng R) :
  position a <> market_pos w \/ resource_level w < 50 ->
  process_action K R w a o 4 g
    = mkResolved R (regenerate w)
        (final_clamp K
           (set_sustenance (base_cost K a)
              (clamp (sustenance (base_cost K a) - 10.0) 0.0 (MAX_STAT K))))
        o false (-15.0) g.
Proof.
  intro H. unfold process_action.
  assert (E : pos_eqb (position (base_cost K a)) (market_pos w)
              && Qleb 50.0 (resource_level w) = false).
  { apply andb_false_iff. destruct H as [H | H].
    - left. change (position (base_cost K a)) with (position a).
      unfold pos_eqb.
      destruct (position a) as [x y], (market_pos w) as [mx my].
      cbn [fst snd].
      destruct (Z.eqb_spec x mx); [| reflexivity].
      destruct (Z.eqb_spec y my); [| reflexivity].
      subst. contradiction.
    - right. apply Qleb_false. lra. }
  unfold resolve_action.
  cbn [Z.leb Z.compare Z.eqb Pos.eqb Pos.compare Pos.compare_cont andb].
  rewrite E. reflexivity.
Qed.

(** X13.  [process_action] reports an exit in one case only: the action is
    the exit attempt, the alignment of the agent is below 10 and the draw is
    below 0.05.  The reward is then 1000 and the mood penalty of the failed
    attempt is not applied. *)
Theorem exit_exactly_when_gate_passes (w : World) (a : Person)
    (o : option Person) (c : Z) (g : rng R) :
  (r_exited (process_action K R w a o c g) = true <->
   c = 12%Z /\ TiR_score a < 10 /\ fst (rand_random R g) < 0.05) /\
  (r_exited (process_action K R w a o c g) = true ->
   r_delta_U (process_action K R w a o c g) = 1000.0 /\
   mood (r_agent (process_action K R w a o c g))
     = clamp (mood a) 0.0 (MAX_STAT K)).
Proof.
  unfold process_action. cbn [r_exited r_delta_U r_agent].
  assert (G : forall x, TiR_score x = TiR_score a ->
                exit_gate R x g
                = (Qltb (TiR_score a) 10.0
                   && Qltb (fst (rand_random R g)) 0.05,
                   if Qltb (TiR_score a) 10.0 then snd (rand_random R g)
                   else g)).
  { intros x Hx. unfold exit_gate. rewrite Hx.
    destruct (Qltb (TiR_score a) 10.0); [| reflexivity].
    destruct (rand_random R g). reflexivity. }
  destruct (Z.eqb_spec c 12) as [-> | Hc].
  - rewrite resolve_exit_attempt. cbv zeta. rewrite G by reflexivity.
    destruct (Qltb (TiR_score a) 10.0) eqn:T;
      [destruct (Qltb (fst (rand_random R g)) 0.05) eqn:D |];
      cbn [andb r_exited r_delta_U r_agent]; split.
    + apply Qltb_true in T. apply Qltb_true in D.
      split; [intros _; repeat split; lra | reflexivity].
    + intros _. split; reflexivity.
    + apply Qltb_false in D.
      split; [discriminate | intros [_ [_ H]]; lra].
    + discriminate.
    + apply Qltb_false in T.
      split; [discriminate | intros [_ [H _]]; lra].
    + discriminate.
  - assert (E : r_exited (resolve_action K R w (base_cost K a) o c g)
                = false).
    { unfold resolve_action.
      destruct (Z.eqb_spec c 12); [contradiction |].
      repeat break_goal; reflexivity. }
    rewrite E. split.
    + split; [discriminate | intros [H _]; contradiction].
    + discriminate.
Qed.

Lemma nth_ACTIONS (i : nat) : In (nth i ACTIONS 0%Z) ACTIONS.
Proof.
  destruct (Nat.lt_ge_cases i (List.length ACTIONS)) as [H | H].
  - apply nth_In. exact H.
  - rewrite nth_overflow by exact H. left. reflexivity.
Qed.

Lemma get_random_action_valid (g : rng R) :
  In (fst (get_random_action R g)) ACTIONS.
Proof.
  unfold get_random_action, rand_choice.
  destruct (rand_below R (List.length ACTIONS) g) as [i g1].
  apply nth_ACTIONS.
Qed.

Lemma consider_picks (agent : Person) (acts : list Z)
    (best : option (Z * Q)) :
  match fold_left (consider agent) acts best with
  | Some (b, _) =>
      In b acts \/ exists u, best = Some (b, u)
  | None => best = None /\ acts = []
  end.
Proof.
  revert best. induction acts as [| a l IH]; intro best; cbn [fold_left].
  - destruct best as [[b u] |]; [right; exists u; reflexivity | tauto].
  - specialize (IH (consider agent best a)).
    destruct (fold_left (consider agent) l (consider agent best a))
      as [[b u] |].
    + destruct IH as [H | [u' H]]; [left; right; exact H |].
      unfold consider in H. destruct best as [[b0 u0] |].
      * match type of H with
        | (if ?c then _ else _) = _ => destruct c
        end; inversion H; subst.
        -- left. left. reflexivity.
        -- right. exists u'. reflexivity.
      * inversion H; subst. left. left. reflexivity.
    + destruct IH as [H _]. unfold consider in H.
      destruct best as [[b0 u0] |]; [| discriminate].
      match type of H with
      | (if ?c then _ else _) = _ => destruct c
      end; discriminate.
Qed.

(** X15.  [decide_action] always answers with one of the thirteen action
    codes.  Its target, when there is one, is an agent of the population
    other than the deciding agent and not a Dependent; there is no target
    exactly when the population has no such agent. *)
Theorem decide_action_choice (agent : Person) (pop : list Person)
    (g : rng R) :
  In (fst (fst (decide_action K R agent pop g))) ACTIONS /\
  (forall t, snd (fst (decide_action K R agent pop g)) = Some t ->
     exists a, In a pop /\ oid a = t /\ oid a <> oid agent /\
               relationship_status a <> Dependent) /\
  (snd (fst (decide_action K R agent pop g)) = None <->
   forall a, In a pop ->
     oid a = oid agent \/ relationship_status a = Dependent).
Proof.
  unfold decide_action.
  set (keep := fun a : Person =>
                 negb (oid a =? oid agent)%nat
                 && negb (Status_eqb (relationship_status a) Dependent)).
  assert (Hk : forall a, keep a = true <->
                 oid a <> oid agent /\ relationship_status a <> Dependent).
  { intro a. unfold keep. rewrite andb_true_iff, !negb_true_iff.
    rewrite Nat.eqb_neq. split; intros [H1 H2]; split; try exact H1.
    - intro E. apply Status_eqb_eq in E. congruence.
    - destruct (Status_eqb (relationship_status a) Dependent) eqn:E;
        [| reflexivity].
      apply Status_eqb_eq in E. contradiction. }
  assert (Ht : forall (tg : option nat) (g1 : rng R),
             (match filter keep pop with
              | [] => (None, g)
              | o :: _ =>
                  let '(t, g0) := rand_choice R (filter keep pop) o g in
                  (Some (oid t), g0)
              end) = (tg, g1) ->
             (forall t, tg = Some t ->
                exists a, In a pop /\ oid a = t /\ oid a <> oid agent /\
                          relationship_status a <> Dependent) /\
             (tg = None <->
              forall a, In a pop ->
                oid a = oid agent \/ relationship_status a = Dependent)).
  { intros tg g1. destruct (filter keep pop) as [| o l] eqn:F.
    - intro E. inversion E; subst. split; [discriminate |].
      split; [| reflexivity]. intros _ a Ha.
      destruct (keep a) eqn:Ka.
      + assert (In a (filter keep pop)) by (apply filter_In; tauto).
        rewrite F in H. contradiction.
      + destruct (Nat.eq_dec (oid a) (oid agent)); [left; assumption |].
        right. destruct (relationship_status a) eqn:S;
          try reflexivity;
          (assert (keep a = true) by
             (apply Hk; split; [assumption | rewrite S; discriminate]);
           congruence).
    - unfold rand_choice.
      destruct (rand_below R (List.length (o :: l)) g) as [i g0].
      intro E. inversion E; subst.
      assert (Hin : In (nth i (o :: l) o) (filter keep pop)).
      { rewrite F.
        destruct (Nat.lt_ge_cases i (List.length (o :: l))) as [H | H].
        - apply nth_In. exact H.
        - rewrite nth_overflow by exact H. left. reflexivity. }
      apply filter_In in Hin. destruct Hin as [Hin Hkeep].
      apply Hk in Hkeep. split.
      + intros t Et. inversion Et; subst.
        exists (nth i (o :: l) o). tauto.
      + split; [discriminate |].
        intro H. destruct (H _ Hin); tauto. }
  destruct (match filter keep pop with
            | [] => (None, g)
            | o :: _ =>
                let '(t, g0) := rand_choice R (filter keep pop) o g in
                (Some (oid t), g0)
            end) as [tg g1] eqn:E.
  specialize (Ht tg g1 eq_refl).
  destruct (rand_random R g1) as [u g2].
  assert (Hr : forall g', In (fst (fst
                 (let '(action, g0) := get_random_action R g' in
                  (action, tg, g0)))) ACTIONS).
  { intro g'. pose proof (get_random_action_valid g') as H.
    destruct (get_random_action R g'). exact H. }
  assert (Hs : forall g' (x : Z * option nat * rng R),
             x = (let '(action, g0) := get_random_action R g' in
                  (action, tg, g0)) -> snd (fst x) = tg).
  { intros g' x ->. destruct (get_random_action R g'). reflexivity. }
  destruct (Qltb u (get_exploration_rate K agent)).
  - split; [apply Hr |]. rewrite (Hs g2 _ eq_refl). exact Ht.
  - destruct (rand_sample R (List.length ACTIONS)
                (Nat.min (List.length ACTIONS) 5) g2) as [idx g3].
    pose proof (consider_picks agent
                  (map (fun i => nth i ACTIONS 0%Z) idx) None) as Hc.
    destruct (fold_left (consider agent)
                (map (fun i => nth i ACTIONS 0%Z) idx) None) as [[b ub] |].
    + cbn [fst snd]. split; [| exact Ht].
      destruct Hc as [Hc | [u' Hc]]; [| discriminate].
      apply in_map_iff in Hc. destruct Hc as [i [<- _]]. apply nth_ACTIONS.
    + split; [apply Hr |]. rewrite (Hs g3 _ eq_refl). exact Ht.
Qed.

Lemma iter_step_shift (n : nat) (s : Simulation R) :
  Nat.iter n (step K R urandom) (step K R urandom s)
    = step K R urandom (Nat.iter n (step K R urandom) s).
Proof.
  induction n as [| n IH]; [reflexivity |].
  change (Nat.iter (S n) (step K R urandom) (step K R urandom s))
    with (step K R urandom
            (Nat.iter n (step K R urandom) (step K R urandom s))).
  rewrite IH. reflexivity.
Qed.

Lemma step_clock (s : Simulation R) :
  global_clock (step K R urandom s) = (global_clock s + 1)%Z /\
  turns (step K R urandom s) = turns s /\
  metrics (step K R urandom s)
    = metrics s
      ++ [snapshot (global_clock (step K R urandom s))
            (exit_log (step K R urandom s)) (agents (step K R urandom s))
            (world (step K R urandom s))].
Proof. unfold step, step_traced. cbn [fst global_clock turns metrics exit_log agents world]. tauto. Qed.

Lemma iter_records (n : nat) (s : Simulation R) :
  global_clock (Nat.iter n (step K R urandom) s)
    = (global_clock s + Z.of_nat n)%Z /\
  metrics (Nat.iter n (step K R urandom) s)
    = metrics s
      ++ map (fun st => snapshot (global_clock st) (exit_log st) (agents st)
                          (world st))
             (states_after K R urandom n s) /\
  map global_clock (states_after K R urandom n s)
    = map (fun k => (global_clock s + Z.of_nat k)%Z) (seq 1 n).
Proof.
  revert s. induction n as [| n IH]; intro s.
  - cbn [Nat.iter nat_rect states_after map seq].
    rewrite app_nil_r. repeat split. lia.
  - change (Nat.iter (S n) (step K R urandom) s)
      with (step K R urandom (Nat.iter n (step K R urandom) s)).
    rewrite <- iter_step_shift.
    destruct (IH (step K R urandom s)) as [C [M T]].
    destruct (step_clock s) as [C1 [_ M1]].
    split; [rewrite C, C1; lia |]. split.
    + rewrite M, M1. cbn [states_after map]. rewrite <- app_assoc.
      reflexivity.
    + cbn [states_after map]. rewrite T.
      change (seq 1 (S n)) with (1%nat :: seq 2 n). cbn [map].
      rewrite <- (seq_shift n 1), map_map, C1.
      replace (global_clock s + Z.of_nat 1)%Z with (global_clock s + 1)%Z
        by lia.
      apply f_equal. apply map_ext. intro k. lia.
Qed.

(** X16.  [run] performs one [step] per turn and every step appends one
    record: after the run the clock has advanced by the number of turns (by
    nothing when that number is negative), and the records added are, in
    order, the tick, the population size, the number of exits, the pool and
    the average alignment of the state each tick ended in, with ticks
    numbered consecutively from the clock at the start plus one. *)
Theorem run_records_every_tick (s : Simulation R) :
  global_clock (run K R urandom s)
    = (global_clock s + Z.max 0 (turns s))%Z /\
  metrics (run K R urandom s)
    = metrics s
      ++ map (fun st => snapshot (global_clock st) (exit_log st) (agents st)
                          (world st))
             (states_after K R urandom (Z.to_nat (turns s)) s) /\
  map global_clock (states_after K R urandom (Z.to_nat (turns s)) s)
    = map (fun k => (global_clock s + Z.of_nat k)%Z)
          (seq 1 (Z.to_nat (turns s))).
Proof.
  unfold run.
  destruct (iter_records (Z.to_nat (turns s)) s) as [C [M T]].
  rewrite C, M, T. split; [lia | split; reflexivity].
Qed.

Lemma sum_TiR_bounds (lo hi : Q) (pop : list Person) (acc : Q) :
  Forall (fun a => lo <= TiR_score a /\ TiR_score a <= hi) pop ->
  acc + lo * inject_Z (Z.of_nat (List.length pop))
    <= fold_left (fun acc a => acc + TiR_score a) pop acc /\
  fold_left (fun acc a => acc + TiR_score a) pop acc
    <= acc + hi * inject_Z (Z.of_nat (List.length pop)).
Proof.
  revert acc. induction pop as [| a l IH]; intros acc H.
  - cbn [fold_left List.length Z.of_nat]. change (inject_Z 0) with 0.
    split; lra.
  - inversion H as [| x y [Ha1 Ha2] Hl]; subst.
    destruct (IH (acc + TiR_score a) Hl) as [L U].
    assert (E : inject_Z (Z.of_nat (List.length (a :: l)))
                == inject_Z (Z.of_nat (List.length l)) + 1).
    { cbn [List.length]. rewrite Nat2Z.inj_succ. unfold Z.succ.
      rewrite inject_Z_plus. reflexivity. }
    cbn [fold_left]. rewrite E. split; lra.
Qed.

(** X17.  When the alignment of every agent of the population is within
    [0, 100], the range [share_belief] clamps it to, so is the average
    alignment of a record; for an empty population the record holds 0 and
    nothing is divided.  The two bounds are exact in binary64 and so are
    their multiples by the size of a population: the property does not
    depend on rounding, as it would for other bounds. *)
Theorem snapshot_average_in_range (clock : Z) (exits pop : list Person)
    (w : World) :
  Forall (fun a => 0 <= TiR_score a /\ TiR_score a <= 100) pop ->
  (pop <> [] ->
   0 <= avg_TiR (snapshot clock exits pop w) /\
   avg_TiR (snapshot clock exits pop w) <= 100) /\
  (pop = [] -> avg_TiR (snapshot clock exits pop w) = 0.0) /\
  population (snapshot clock exits pop w) = Z.of_nat (List.length pop) /\
  exited (snapshot clock exits pop w) = Z.of_nat (List.length exits).
Proof.
  intro H. split; [| split; [intros ->; reflexivity | split; reflexivity]].
  intro Hne. destruct pop as [| a l]; [contradiction |].
  cbn [snapshot avg_TiR]. unfold sum_TiR.
  destruct (sum_TiR_bounds 0 100 (a :: l) 0 H) as [L U].
  assert (P : 0 < inject_Z (Z.of_nat (List.length (a :: l)))).
  { change 0 with (inject_Z 0). rewrite <- Zlt_Qlt.
    cbn [List.length]. lia. }
  split.
  - apply Qle_shift_div_l; [exact P | lra].
  - apply Qle_shift_div_r; [exact P | lra].
Qed.

End Extras.

(* ================================================================== *)
(** ** Concrete runs

    The properties above, on the initial population of
    [Simulation.__init__] with the constants [demo_constants] and the
    generator [tape]. *)

(** The first run, the first sweep of it, the same run from an empty pool,
    and two populations about to run a tick. *)
Abbreviation demo_sim :=
  (Simulation_init demo_constants tape no_uuid 3 (Some 1%Z) []).

Abbreviation demo_sweep := (first_sweep demo_sim).

Abbreviation drained_sim := (drained demo_sim).

Abbreviation mourning_sim :=
  (tick_of demo_constants tape [dying_leo; leos_clara; demo_elara]
     [40; 7; 90; 3; 5]%nat 3).

Abbreviation nursery_sim :=
  (tick_of demo_constants tape [demo_leo; demo_child]
     [40; 7; 90; 3; 5]%nat 4).

Lemma demo_sim_well_formed : well_formed tape demo_sim.
Proof. apply (well_formed_init demo_constants tape no_uuid). Qed.

Lemma mourning_sim_well_formed : well_formed tape mourning_sim.
Proof.
  split.
  - repeat constructor; simpl; intuition discriminate.
  - repeat constructor.
Qed.

Lemma nursery_sim_well_formed : well_formed tape nursery_sim.
Proof.
  split.
  - repeat constructor; simpl; intuition discriminate.
  - repeat constructor.
Qed.

(** C1: in the first tick of [demo_sim] the three agents act, and the pool
    regenerates three times; from an empty pool it ends at three times the
    rate, not at the rate. *)
Lemma regeneration_thrice_in_first_tick :
  regenerations (snd (step_traced demo_constants tape no_uuid demo_sim))
    = 3%nat /\
  regenerations (snd (step_traced demo_constants tape no_uuid demo_sim))
    <> 1%nat /\
  resource_level (world (step demo_constants tape no_uuid drained_sim))
    == 15 /\
  ~ resource_level (world (step demo_constants tape no_uuid drained_sim))
    == resource_level (regenerate (world drained_sim)).
Proof.
  split; [vm_compute; reflexivity |].
  split; [vm_compute; discriminate |].
  split; [vm_compute; reflexivity |].
  intro H. vm_compute in H. discriminate H.
Qed.

(** C4: in binary64 the update reaches the reward.  Meditation (action 5)
    pays 20.0 every time and leaves the state key of a well-fed agent as it
    is.  From the default 10.0 the value is still below 20.0 after 51
    updates, and the 52nd update returns 20.0 itself: the new value is not
    strictly between the old value and the reward, which differ. *)
Lemma update_reaches_reward_in_binary64 :
  PrimFloat.ltb
    (Nat.iter 51 (fun cur_Q => new_Q_binary64 cur_Q 20%float) 10%float)
    20%float = true /\
  PrimFloat.eqb
    (new_Q_binary64
       (Nat.iter 51 (fun cur_Q => new_Q_binary64 cur_Q 20%float) 10%float)
       20%float)
    20%float = true /\
  PrimFloat.ltb
    (new_Q_binary64
       (Nat.iter 51 (fun cur_Q => new_Q_binary64 cur_Q 20%float) 10%float)
       20%float)
    20%float = false.
Proof.
  split; [vm_compute; reflexivity |].
  split; vm_compute; reflexivity.
Qed.

(** Closes a comparison of two explicit rationals. *)
Ltac compare_numbers := unfold Qle, Qlt, Qeq; simpl; lia.

(** C2, on two calls from the full pool and on two ticks of [demo_sim]. *)
Lemma pool_within_bounds_witness :
  Forall pool_in_range
    (worlds_after demo_constants tape (World_init demo_constants)
       [mkCall tape demo_elara None 4 []; mkCall tape demo_leo None 12 []])
  /\
  Forall (fun s' => pool_in_range (world s'))
    (states_after demo_constants tape no_uuid 2 demo_sim).
Proof.
  destruct (pool_within_bounds demo_constants tape no_uuid
              (World_init demo_constants)
              [mkCall tape demo_elara None 4 [];
               mkCall tape demo_leo None 12 []]
              demo_sim 2) as [A B].
  - compare_numbers.
  - split; [exact A |].
    apply B; [reflexivity |]. split; compare_numbers.
Defined.

(** C3, for Leo, whose alignment is 85. *)
Lemma exit_needs_low_alignment_witness :
  r_exited
    (process_action demo_constants tape (World_init demo_constants) demo_leo
       None 12 [3%nat]) = false.
Proof.
  refine (proj1 (exit_needs_low_alignment demo_constants tape
                   (World_init demo_constants) demo_leo None [3%nat] _)).
  compare_numbers.
Defined.

(** C6, for Elara, who stands on the market cell. *)
Lemma market_visit_deducts_fifty_witness :
  resource_level
    (r_world
       (resolve_action demo_constants tape (World_init demo_constants)
          (base_cost demo_constants demo_elara) None 4 []))
    = resource_level (World_init demo_constants) - 50.0 /\
  sustenance
    (r_agent
       (process_action demo_constants tape (World_init demo_constants)
          demo_elara None 4 [])) <= 100.
Proof.
  destruct (market_visit_deducts_fifty demo_constants tape
              (World_init demo_constants) demo_elara None [])
    as [A [_ [C _]]].
  - reflexivity.
  - compare_numbers.
  - compare_numbers.
  - split; [exact A | exact C].
Defined.



(** C9, for the same tick. *)
Lemma every_removal_is_grieved_witness :
  agents (step demo_constants tape no_uuid mourning_sim)
    = map (grieve_all demo_constants
             (sw_to_remove (sweep demo_constants tape no_uuid mourning_sim)))
          (survivors
             (sw_to_remove (sweep demo_constants tape no_uuid mourning_sim))
             (sw_agents (sweep demo_constants tape no_uuid mourning_sim)))
      ++ sw_children (sweep demo_constants tape no_uuid mourning_sim).
Proof.
  refine (proj1 (every_removal_is_grieved demo_constants tape no_uuid
                   mourning_sim dying_leo leos_clara dying_leo demo_leo
                   demo_sweep 0 [] [] _)).
  exact mourning_sim_well_formed.
Defined.

(** C1 (amended), for the first tick of [demo_sim]. *)
Lemma regeneration_once_per_call_witness :
  regenerations (snd (step_traced demo_constants tape no_uuid demo_sim))
    = List.length (filter (acts demo_constants) (agents demo_sim)).
Proof.
  refine (proj1 (proj2 (regeneration_once_per_call demo_constants tape
                          no_uuid (World_init demo_constants) demo_leo None 0
                          [] demo_sim) _)).
  exact demo_sim_well_formed.
Defined.

(** C4, for the turn of Leo in the first tick of [demo_sim]. *)
Lemma learning_update_witness :
  let pre := before_action demo_constants tape 1 demo_sweep demo_leo in
  let pop := pop_before_action demo_constants tape 1 demo_sweep demo_leo in
  let g := rng_before_action demo_constants tape 1 demo_sweep demo_leo in
  exists x,
    find_agent 0
      (sw_agents (step_agent demo_constants tape no_uuid 1 demo_sweep 0))
      = Some x /\
    action_utility_tracker x
      = action_utility_tracker
          (q_update pre
             (_state_key pre (turn_action demo_constants tape pre pop g))
             (r_delta_U
                (turn_outcome demo_constants tape (sw_world demo_sweep) pre
                   pop g))).
Proof.
  refine (proj2 (proj2 (proj2 (proj2
            (learning_update demo_constants tape no_uuid demo_leo
               ((1, 1)%Z, true, false, 7%Z) 1 1 demo_sweep 0 demo_leo))))
            _ _).
  - reflexivity.
  - vm_compute. reflexivity.
Defined.

(** C7, for a child at its last tick as a dependent. *)
Lemma dependent_only_grows_witness :
  (relationship_status (grow_up demo_constants demo_child) = Single /\
   age_years (grow_up demo_constants demo_child) = 10%Z) /\
  forall e,
    In e (snd (step_traced demo_constants tape no_uuid nursery_sim)) ->
    actor e <> oid demo_child.
Proof.
  destruct (dependent_only_grows demo_constants tape no_uuid 1 demo_sweep 0
              demo_child nursery_sim demo_child) as [_ [_ [A [_ B]]]].
  split.
  - apply A. vm_compute. discriminate.
  - apply B.
    + exact nursery_sim_well_formed.
    + right. left. reflexivity.
    + reflexivity.
Defined.

(** X2, for Leo under the demonstration constants. *)
Lemma exploration_rate_is_probability_witness :
  0 <= get_exploration_rate demo_constants demo_leo /\
  get_exploration_rate demo_constants demo_leo <= 1.
Proof.
  destruct (exploration_rate_is_probability demo_constants demo_leo)
    as [A [B _]].
  - compare_numbers.
  - split; [exact A | exact B].
Defined.

(** X4, for Leo on the verge of death. *)
Lemma aging_and_decay_outcome_witness :
  snd (fst (apply_aging_and_decay demo_constants tape dying_leo 1 []))
    = true <->
  health (decayed demo_constants dying_leo) <= 0 \/
  sustenance (decayed demo_constants dying_leo) <= 0.
Proof.
  destruct (aging_and_decay_outcome demo_constants tape dying_leo 1 [])
    as [A _].
  - compare_numbers.
  - compare_numbers.
  - exact A.
Defined.

(** X9, for Leo stepping from (1, 1). *)
Lemma movement_outcome_witness :
  position
    (r_agent
       (process_action demo_constants tape (World_init demo_constants)
          demo_leo None 0 []))
    = cell_ahead (position demo_leo) 0.
Proof.
  destruct (movement_outcome demo_constants tape
              (World_init demo_constants) demo_leo None 0 [])
    as [A _].
  - lia.
  - apply A. unfold in_grid. simpl. lia.
Defined.

(** X10, for Leo visiting the market. *)
Lemma process_action_clamps_witness :
  bounded demo_constants
    (set_TiR_score
       (r_agent
          (process_action demo_constants tape (World_init demo_constants)
             demo_leo None 4 [])) 0).
Proof.
  destruct (process_action_clamps demo_constants tape
              (World_init demo_constants) demo_leo None 4 [] demo_clara
              demo_clara)
    as [A _].
  - compare_numbers.
  - compare_numbers.
  - exact A.
Defined.

(** X11, for the code 13. *)
Lemma unknown_action_is_idle_witness :
  process_action demo_constants tape (World_init demo_constants) demo_leo
    None 13 []
  = mkResolved tape (regenerate (World_init demo_constants))
      (final_clamp demo_constants (base_cost demo_constants demo_leo))
      None false 0.0 [].
Proof.
  apply (unknown_action_is_idle demo_constants tape
           (World_init demo_constants) demo_leo None 13 []).
  right. left. lia.
Defined.

(** X12, for Leo, who is not on the market cell. *)
Lemma market_visit_fails_witness :
  r_delta_U
    (process_action demo_constants tape (World_init demo_constants)
       demo_leo None 4 []) = -15.0.
Proof.
  rewrite (market_visit_fails demo_constants tape
             (World_init demo_constants) demo_leo None []).
  - reflexivity.
  - left. discriminate.
Defined.

(** X17, for Leo and Clara. *)
Lemma snapshot_average_in_range_witness :
  0 <= avg_TiR
         (snapshot 1 [] [demo_leo; demo_clara] (World_init demo_constants))
  /\
  avg_TiR (snapshot 1 [] [demo_leo; demo_clara] (World_init demo_constants))
    <= 100.
Proof.
  destruct (snapshot_average_in_range 1 [] [demo_leo; demo_clara]
              (World_init demo_constants))
    as [A _].
  - repeat constructor; compare_numbers.
  - apply A. discriminate.
Defined.
